(* ===================================================================== *)
(*  WebSocketProvider (packages/providers/src.ts/websocket-provider.ts)  *)
(*                                                                       *)
(*  A shallow embedding of the provider's request correlation, readiness *)
(*  gate and subscription bookkeeping, with the JavaScript run-time      *)
(*  notions the code relies on (JSON values, truthiness, String(),       *)
(*  property order of Object.keys, promises and the microtask queue)     *)
(*  written out as far as the code uses them.                            *)
(*                                                                       *)
(*  Conventions of the model                                             *)
(*   - numbers are the integers (Z); NextId and the ids found in         *)
(*     messages stay far below 2^53, where JavaScript numbers are exact  *)
(*     and String(n) is the decimal numeral;                             *)
(*   - the objects used as dictionaries (_requests, _subIds, _subs) are  *)
(*     read through their own properties; the keys in use (decimal ids,  *)
(*     event tags, backend subscription ids) are not member names of     *)
(*     Object.prototype;                                                 *)
(*   - `await p` on a native promise registers the continuation on p     *)
(*     itself (ECMAScript 2019 semantics).                               *)
(* ===================================================================== *)

From Stdlib Require Import ZArith Ascii String List Sorted Lia.
From stdpp Require Import base option list strings pretty gmap fin_maps.

Set Warnings "-register-all".
Open Scope string_scope.
Open Scope Z_scope.

(* --------------------------------------------------------------------- *)
(** * JSON values, as produced by JSON.parse                              *)
(* --------------------------------------------------------------------- *)

Inductive JSON : Type :=
| JNull
| JBool (b : bool)
| JNum (n : Z)
| JStr (s : string)
| JArr (items : list JSON)
| JObj (fields : list (string * JSON)).

(** A JavaScript value is a JSON value or [undefined] ([None]). *)
Abbreviation JSValue := (option JSON).
Abbreviation undefined := (@None JSON).

Module JS.

(** String(v); an array joins its elements with commas, where null
    elements print as the empty string. *)
Fixpoint String (v : JSON) : string :=
  match v with
  | JNull => "null"
  | JBool true => "true"
  | JBool false => "false"
  | JNum n => pretty n
  | JStr s => s
  | JArr items =>
      (fix join (l : list JSON) : string :=
         match l with
         | [] => ""
         | x :: r =>
             let sx := match x with JNull => "" | _ => String x end in
             match r with
             | [] => sx
             | _ :: _ => sx +:+ "," +:+ join r
             end
         end) items
  | JObj _ => "[object Object]"
  end.

(** The property key an arbitrary value denotes in [o[v]]. *)
Definition PropertyKey (v : JSValue) : string :=
  match v with
  | Some j => String j
  | None => "undefined"
  end.

(** ToBoolean. *)
Definition truthy (v : JSValue) : bool :=
  match v with
  | None => false
  | Some JNull => false
  | Some (JBool b) => b
  | Some (JNum n) => negb (n =? 0)
  | Some (JStr s) => negb (s =? "")%string
  | Some (JArr _) => true
  | Some (JObj _) => true
  end.

(** [v != null]: neither null nor undefined. *)
Definition not_nullish (v : JSValue) : bool :=
  match v with
  | None | Some JNull => false
  | Some _ => true
  end.

(** [v === s] for a string literal [s]. *)
Definition is_string (v : JSValue) (s : string) : bool :=
  match v with
  | Some (JStr s') => (s' =? s)%string
  | _ => false
  end.

(** Own property of a parsed object; JSON.parse keeps the last of several
    bindings of a name. *)
Fixpoint field (k : string) (fields : list (string * JSON)) : JSValue :=
  match fields with
  | [] => None
  | (k', v) :: rest =>
      match field k rest with
      | Some w => Some w
      | None => if (k =? k')%string then Some v else None
      end
  end.

(** Exceptions the modelled code can raise. *)
Inductive Exception : Type :=
| TypeError
| SyntaxError
| LoggerError (message code operation : string).

(** [v.k] for the property names the provider reads (id, result, error,
    method, params, subscription, message, code): none of them is defined
    on the prototypes of arrays, strings, numbers or booleans, so only an
    object can answer; reading a property of null or undefined throws. *)
Definition get (v : JSValue) (k : string) : Exception + JSValue :=
  match v with
  | None | Some JNull => inl TypeError
  | Some (JObj fields) => inr (field k fields)
  | Some _ => inr None
  end.

End JS.

(* --------------------------------------------------------------------- *)
(** * Objects with ordered own properties                                 *)
(* --------------------------------------------------------------------- *)

(** [_requests] is enumerated with Object.keys, so the order of its own
    properties matters: it is kept as an association list in insertion
    order, without repeated keys. *)
Module Obj.

Section Ops.
Context {V : Type}.

Fixpoint get (k : string) (o : list (string * V)) : option V :=
  match o with
  | [] => None
  | (k', v) :: rest => if (k =? k')%string then Some v else get k rest
  end.

(** [o[k] = v]: an existing property keeps its place. *)
Fixpoint set (k : string) (v : V) (o : list (string * V)) : list (string * V) :=
  match o with
  | [] => [(k, v)]
  | (k', v') :: rest =>
      if (k =? k')%string then (k, v) :: rest else (k', v') :: set k v rest
  end.

(** [delete o[k]]. *)
Fixpoint delete (k : string) (o : list (string * V)) : list (string * V) :=
  match o with
  | [] => []
  | (k', v') :: rest =>
      if (k =? k')%string then delete k rest else (k', v') :: delete k rest
  end.

End Ops.

(** Decimal digits of a string, most significant first. *)
Definition digit (c : ascii) : option N :=
  let n := N_of_ascii c in
  if ((48 <=? n) && (n <=? 57))%N then Some (n - 48)%N else None.

Fixpoint digits (acc : N) (s : string) : option N :=
  match s with
  | EmptyString => Some acc
  | String.String c r =>
      match digit c with
      | Some d => digits (10 * acc + d)%N r
      | None => None
      end
  end.

(** An array index is a canonical numeric string (the numeral of its own
    value) below 2^32 - 1. *)
Definition array_index (s : string) : option N :=
  match digits 0%N s with
  | Some n =>
      if ((pretty n =? s)%string && (n <? 4294967295)%N)%bool
      then Some n else None
  | None => None
  end.

(** Insertion into a list of (index, key) pairs sorted by index. *)
Fixpoint insert_index (x : N * string) (l : list (N * string)) : list (N * string) :=
  match l with
  | [] => [x]
  | y :: r => if (x.1 <=? y.1)%N then x :: y :: r else y :: insert_index x r
  end.

Definition sort_index (l : list (N * string)) : list (N * string) :=
  foldr insert_index [] l.

Fixpoint index_keys (ks : list string) : list (N * string) :=
  match ks with
  | [] => []
  | k :: rest =>
      match array_index k with
      | Some n => (n, k) :: index_keys rest
      | None => index_keys rest
      end
  end.

(** The order in which [sort_index] leaves the indices. *)
Definition index_le (x y : N * string) : Prop := (x.1 <= y.1)%N.

Definition name_keys (ks : list string) : list string :=
  List.filter (fun k => match array_index k with
                        | Some _ => false
                        | None => true
                        end) ks.

(** Object.keys: array indices in ascending numeric order, then the
    other names in insertion order. *)
Definition keys {V : Type} (o : list (string * V)) : list string :=
  let ks := map fst o in
  map snd (sort_index (index_keys ks)) ++ name_keys ks.

End Obj.

(* --------------------------------------------------------------------- *)
(** * The provider's state                                                *)
(* --------------------------------------------------------------------- *)

(** An Error object: [code] is [None] when the object has no such
    property, [response] likewise. *)
Record JSError : Type := mkError {
  message : string;
  code : option JSON;
  response : option string
}.

Inductive Outcome : Type :=
| Returned
| Threw (e : JS.Exception).

(** How a promise ends. *)
Inductive Settled : Type :=
| Fulfilled (v : JSValue)
| Rejected (e : JSError).

Section Provider.

(** JSON.stringify and JSON.parse of the run-time library; JSON.parse
    answers [None] where it throws a SyntaxError. *)
Variable JSON_stringify : JSON -> string.
Variable JSON_parse : string -> option JSON.

(** The dispatch closures handed to [_subscribe]. *)
Variable ProcessFunc : Type.

(** [callback] is the closure made in [send]; it is identified with the
    promise whose resolve and reject functions it captured. *)
Record InflightRequest : Type := mkRequest {
  callback : nat;
  payload : string
}.

Record Subscription : Type := mkSubscription {
  tag : string;
  processFunc : ProcessFunc
}.

(** The fields of a base-provider Event that [_stopEvent] reads. *)
Record Event : Type := mkEvent {
  event_type : string;
  event_tag : string
}.

(** The functions the provider passes to [then] and the continuation of
    its one [await], defunctionalised. *)
Inductive Handler : Type :=
| H_send_eth_subscribe
    (* (param) => this.send("eth_subscribe", param) *)
| H_await_subIdPromise (tag : string) (processFunc : ProcessFunc)
    (* _subscribe after [await subIdPromise] *)
| H_stopEvent
    (* (subId) => { ... this.send("eth_unsubscribe", [ subId ]) } *)
| H_adopt
    (* the resolving functions of the derived promise *).

Inductive PromiseState : Type :=
| Pending (reactions : list (Handler * nat))
| Done (s : Settled).

Inductive Job : Type :=
| ReactionJob (h : Handler) (derived : nat) (s : Settled)
| ThenableJob (target source : nat)
| AllJob (p : nat) (values : list JSON).

Record State : Type := mkState {
  NextId : Z;                                   (* module-level counter *)
  _wsReady : bool;
  _requests : list (string * InflightRequest);
  _subIds : gmap string nat;                    (* tag -> promise *)
  _subs : gmap string Subscription;
  _events : list Event;                         (* of the base provider *)
  websocket_sent : list string;                 (* _websocket.send, oldest first *)
  console_warn : list string;
  dispatched : list (ProcessFunc * JSValue);    (* processFunc calls, oldest first *)
  promises : gmap nat PromiseState;
  next_promise : nat;
  microtasks : list Job
}.

Definition set_NextId (n : Z) (st : State) : State :=
  mkState n (_wsReady st) (_requests st) (_subIds st) (_subs st) (_events st)
    (websocket_sent st) (console_warn st) (dispatched st) (promises st)
    (next_promise st) (microtasks st).

Definition set_wsReady (b : bool) (st : State) : State :=
  mkState (NextId st) b (_requests st) (_subIds st) (_subs st) (_events st)
    (websocket_sent st) (console_warn st) (dispatched st) (promises st)
    (next_promise st) (microtasks st).

Definition set_requests (r : list (string * InflightRequest)) (st : State) : State :=
  mkState (NextId st) (_wsReady st) r (_subIds st) (_subs st) (_events st)
    (websocket_sent st) (console_warn st) (dispatched st) (promises st)
    (next_promise st) (microtasks st).

Definition set_subIds (m : gmap string nat) (st : State) : State :=
  mkState (NextId st) (_wsReady st) (_requests st) m (_subs st) (_events st)
    (websocket_sent st) (console_warn st) (dispatched st) (promises st)
    (next_promise st) (microtasks st).

Definition set_subs (m : gmap string Subscription) (st : State) : State :=
  mkState (NextId st) (_wsReady st) (_requests st) (_subIds st) m (_events st)
    (websocket_sent st) (console_warn st) (dispatched st) (promises st)
    (next_promise st) (microtasks st).

Definition websocket_send (data : string) (st : State) : State :=
  mkState (NextId st) (_wsReady st) (_requests st) (_subIds st) (_subs st)
    (_events st) (websocket_sent st ++ [data]) (console_warn st)
    (dispatched st) (promises st) (next_promise st) (microtasks st).

Definition warn (text : string) (st : State) : State :=
  mkState (NextId st) (_wsReady st) (_requests st) (_subIds st) (_subs st)
    (_events st) (websocket_sent st) (console_warn st ++ [text])
    (dispatched st) (promises st) (next_promise st) (microtasks st).

(** Calling a dispatch closure; closures are taken to return normally. *)
Definition call_processFunc (f : ProcessFunc) (v : JSValue) (st : State) : State :=
  mkState (NextId st) (_wsReady st) (_requests st) (_subIds st) (_subs st)
    (_events st) (websocket_sent st) (console_warn st)
    (dispatched st ++ [(f, v)]) (promises st) (next_promise st) (microtasks st).

Definition set_promise (p : nat) (ps : PromiseState) (st : State) : State :=
  mkState (NextId st) (_wsReady st) (_requests st) (_subIds st) (_subs st)
    (_events st) (websocket_sent st) (console_warn st) (dispatched st)
    (<[p := ps]> (promises st)) (next_promise st) (microtasks st).

Definition set_microtasks (q : list Job) (st : State) : State :=
  mkState (NextId st) (_wsReady st) (_requests st) (_subIds st) (_subs st)
    (_events st) (websocket_sent st) (console_warn st) (dispatched st)
    (promises st) (next_promise st) q.

Definition enqueue (j : list Job) (st : State) : State :=
  set_microtasks (microtasks st ++ j) st.

(* --------------------------------------------------------------------- *)
(** * Promises                                                            *)
(* --------------------------------------------------------------------- *)

(** [new Promise(...)]: a fresh pending promise. *)
Definition new_promise (st : State) : nat * State :=
  let p := next_promise st in
  (p, mkState (NextId st) (_wsReady st) (_requests st) (_subIds st) (_subs st)
        (_events st) (websocket_sent st) (console_warn st) (dispatched st)
        (<[p := Pending []]> (promises st)) (S p) (microtasks st)).

(** resolve/reject with a value that is not a promise: the first call
    settles the promise and schedules its reactions, later calls do
    nothing. *)
Definition settle (p : nat) (s : Settled) (st : State) : State :=
  match promises st !! p with
  | Some (Pending reactions) =>
      enqueue (map (fun r => ReactionJob r.1 r.2 s) reactions)
        (set_promise p (Done s) st)
  | _ => st
  end.

(** [p.then(h)] with derived promise [d]. *)
Definition then_ (p : nat) (h : Handler) (d : nat) (st : State) : State :=
  match promises st !! p with
  | Some (Pending reactions) => set_promise p (Pending (reactions ++ [(h, d)])) st
  | Some (Done s) => enqueue [ReactionJob h d s] st
  | None => st
  end.

(* --------------------------------------------------------------------- *)
(** * send and the socket's onopen handler                                *)
(* --------------------------------------------------------------------- *)

(** The object serialised by [send]; JSON.stringify leaves out a property
    whose value is undefined. *)
Definition request_object (method : string) (params : JSValue) (rid : Z) : JSON :=
  JObj ([("method", JStr method)]
        ++ match params with Some p => [("params", p)] | None => [] end
        ++ [("id", JNum rid); ("jsonrpc", JStr "2.0")]).

(** [send(method, params)]: the executor of the new promise runs at once. *)
Definition send (method : string) (params : JSValue) (st : State) : nat * State :=
  let rid := NextId st in
  let st1 := set_NextId (rid + 1) st in
  let '(p, st2) := new_promise st1 in
  let payload := JSON_stringify (request_object method params rid) in
  let st3 := set_requests (Obj.set (pretty rid) (mkRequest p payload) (_requests st2)) st2 in
  (p, if _wsReady st3 then websocket_send payload st3 else st3).

(** The forEach loop of onopen over the keys taken beforehand. *)
Fixpoint flush (ids : list string) (st : State) : State * Outcome :=
  match ids with
  | [] => (st, Returned)
  | id :: rest =>
      match Obj.get id (_requests st) with
      | Some request => flush rest (websocket_send (payload request) st)
      | None => (st, Threw JS.TypeError)
      end
  end.

Definition onopen (st : State) : State * Outcome :=
  let st1 := set_wsReady true st in
  flush (Obj.keys (_requests st1)) st1.

(* --------------------------------------------------------------------- *)
(** * The socket's onmessage handler                                      *)
(* --------------------------------------------------------------------- *)

(** [callback(error, result)] of [send]: a null error resolves. *)
Definition callback_call (p : nat) (error : option JSError) (result : JSValue)
    (st : State) : State :=
  match error with
  | Some e => settle p (Rejected e) st
  | None => settle p (Fulfilled result) st
  end.

(** [request.callback(error, result)]; [request] is undefined when the
    lookup found nothing. *)
Definition request_callback (request : option InflightRequest)
    (error : option JSError) (result : JSValue) (st : State) : State * Outcome :=
  match request with
  | Some r => (callback_call (callback r) error result st, Returned)
  | None => (st, Threw JS.TypeError)
  end.

(** [x || d] on strings: [new Error(x || "unknown error")]. *)
Definition message_or (v : JSValue) (d : string) : string :=
  match v with
  | Some j => if JS.truthy v then JS.String j else d
  | None => d
  end.

(** [x || null]. *)
Definition code_or_null (v : JSValue) : JSON :=
  match v with
  | Some j => if JS.truthy v then j else JNull
  | None => JNull
  end.

Definition try_get (v : JSValue) (k : string) (st : State)
    (cont : JSValue -> State * Outcome) : State * Outcome :=
  match JS.get v k with
  | inl e => (st, Threw e)
  | inr x => cont x
  end.

Definition handle_response (data : string) (result : JSON) (idv : JSValue)
    (st : State) : State * Outcome :=
  let id := JS.PropertyKey idv in
  let request := Obj.get id (_requests st) in
  let st1 := set_requests (Obj.delete id (_requests st)) st in
  try_get (Some result) "result" st1 (fun r =>
  match r with
  | Some _ => request_callback request None r st1
  | None =>
      try_get (Some result) "error" st1 (fun err =>
      if JS.truthy err then
        try_get err "message" st1 (fun m =>
        try_get err "code" st1 (fun c =>
        let error := mkError (message_or m "unknown error")
                             (Some (code_or_null c)) (Some data) in
        request_callback request (Some error) undefined st1))
      else
        request_callback request (Some (mkError "unknown error" None None))
          undefined st1)
  end).

Definition handle_subscription (result : JSON) (st : State) : State * Outcome :=
  try_get (Some result) "params" st (fun params =>
  try_get params "subscription" st (fun subscription =>
  match _subs st !! JS.PropertyKey subscription with
  | Some sub =>
      try_get params "result" st (fun r =>
      (call_processFunc (processFunc sub) r st, Returned))
  | None => (st, Returned)
  end)).

Definition onmessage (data : string) (st : State) : State * Outcome :=
  match JSON_parse data with
  | None => (st, Threw JS.SyntaxError)
  | Some result =>
      try_get (Some result) "id" st (fun idv =>
      if JS.not_nullish idv then handle_response data result idv st
      else
        try_get (Some result) "method" st (fun method =>
        if JS.is_string method "eth_subscription"
        then handle_subscription result st
        else (warn "this should not happen" st, Returned)))
  end.

(* --------------------------------------------------------------------- *)
(** * Subscriptions                                                       *)
(* --------------------------------------------------------------------- *)

(** [this.listenerCount(event.event)] of the base provider, which counts
    the registered listeners of the event's name. *)
Variable listenerCount : list Event -> Event -> nat.

(** [_subscribe(tag, param, processFunc)] up to its await; the elements of
    [param] are plain values, so Promise.all fulfils with the same array
    from a later microtask. The result is the promise of the async
    function. *)
Definition _subscribe (tag : string) (param : list JSON) (processFunc : ProcessFunc)
    (st : State) : nat * State :=
  let '(ret, st1) := new_promise st in
  let '(subIdPromise, st2) :=
    match _subIds st1 !! tag with
    | Some q => (q, st1)
    | None =>
        let '(all, sa) := new_promise st1 in
        let sb := enqueue [AllJob all param] sa in
        let '(q, sc) := new_promise sb in
        let sd := then_ all H_send_eth_subscribe q sc in
        (q, set_subIds (<[tag := q]> (_subIds sd)) sd)
    end in
  (ret, then_ subIdPromise (H_await_subIdPromise tag processFunc) ret st2).

(** The end of [_stopEvent], once the tag is known. *)
Definition stop_tag (tag : string) (st : State) : State :=
  match _subIds st !! tag with
  | None => st
  | Some subId =>
      let st1 := set_subIds (delete tag (_subIds st)) st in
      let '(d, st2) := new_promise st1 in
      then_ subId H_stopEvent d st2
  end.

Definition is_tx (e : Event) : bool := (event_type e =? "tx")%string.

Definition _stopEvent (event : Event) (st : State) : State :=
  if is_tx event then
    if (0 <? length (List.filter is_tx (_events st)))%nat then st
    else stop_tag "tx" st
  else if (0 <? listenerCount (_events st) event)%nat then st
  else stop_tag (event_tag event) st.

(* --------------------------------------------------------------------- *)
(** * The microtask queue                                                 *)
(* --------------------------------------------------------------------- *)

(** The element [subId] of the array literal [[ subId ]]; JSON.stringify
    prints an undefined element as null. *)
Definition array_element (v : JSValue) : JSON := default JNull v.

Definition run_job (j : Job) (st : State) : State :=
  match j with
  | AllJob p values => settle p (Fulfilled (Some (JArr values))) st
  | ThenableJob target source => then_ source H_adopt target st
  | ReactionJob H_adopt d s => settle d s st
  | ReactionJob H_send_eth_subscribe d (Fulfilled param) =>
      let '(p, st1) := send "eth_subscribe" param st in
      enqueue [ThenableJob d p] st1
  | ReactionJob (H_await_subIdPromise tag f) d (Fulfilled subId) =>
      let key := JS.PropertyKey subId in
      settle d (Fulfilled undefined)
        (set_subs (<[key := mkSubscription tag f]> (_subs st)) st)
  | ReactionJob H_stopEvent d (Fulfilled subId) =>
      let key := JS.PropertyKey subId in
      match _subs st !! key with
      | None => settle d (Fulfilled undefined) st
      | Some _ =>
          let st1 := set_subs (delete key (_subs st)) st in
          let '(_, st2) := send "eth_unsubscribe" (Some (JArr [array_element subId])) st1 in
          settle d (Fulfilled undefined) st2
      end
  | ReactionJob _ d (Rejected e) => settle d (Rejected e) st
  end.

(** Run the queue until it is empty or the fuel is spent. *)
Fixpoint run_microtasks (fuel : nat) (st : State) : State :=
  match fuel with
  | O => st
  | S fuel' =>
      match microtasks st with
      | [] => st
      | j :: rest => run_microtasks fuel' (run_job j (set_microtasks rest st))
      end
  end.

End Provider.

Arguments mkSubscription {ProcessFunc}.
Arguments tag {ProcessFunc}.
Arguments processFunc {ProcessFunc}.
Arguments H_send_eth_subscribe {ProcessFunc}.
Arguments H_await_subIdPromise {ProcessFunc}.
Arguments H_stopEvent {ProcessFunc}.
Arguments H_adopt {ProcessFunc}.
Arguments Pending {ProcessFunc}.
Arguments Done {ProcessFunc}.
Arguments ReactionJob {ProcessFunc}.
Arguments ThenableJob {ProcessFunc}.
Arguments AllJob {ProcessFunc}.
Arguments mkState {ProcessFunc}.
Arguments NextId {ProcessFunc}.
Arguments _wsReady {ProcessFunc}.
Arguments _requests {ProcessFunc}.
Arguments _subIds {ProcessFunc}.
Arguments _subs {ProcessFunc}.
Arguments _events {ProcessFunc}.
Arguments websocket_sent {ProcessFunc}.
Arguments console_warn {ProcessFunc}.
Arguments dispatched {ProcessFunc}.
Arguments promises {ProcessFunc}.
Arguments next_promise {ProcessFunc}.
Arguments microtasks {ProcessFunc}.
Arguments set_NextId {ProcessFunc}.
Arguments set_wsReady {ProcessFunc}.
Arguments set_requests {ProcessFunc}.
Arguments set_subIds {ProcessFunc}.
Arguments set_subs {ProcessFunc}.
Arguments set_promise {ProcessFunc}.
Arguments set_microtasks {ProcessFunc}.
Arguments websocket_send {ProcessFunc}.
Arguments warn {ProcessFunc}.
Arguments call_processFunc {ProcessFunc}.
Arguments enqueue {ProcessFunc}.
Arguments new_promise {ProcessFunc}.
Arguments settle {ProcessFunc}.
Arguments then_ {ProcessFunc}.
Arguments send JSON_stringify {ProcessFunc}.
Arguments flush {ProcessFunc}.
Arguments onopen {ProcessFunc}.
Arguments callback_call {ProcessFunc}.
Arguments request_callback {ProcessFunc}.
Arguments try_get {ProcessFunc}.
Arguments handle_response {ProcessFunc}.
Arguments handle_subscription {ProcessFunc}.
Arguments onmessage JSON_parse {ProcessFunc}.
Arguments _subscribe {ProcessFunc}.
Arguments stop_tag {ProcessFunc}.
Arguments _stopEvent {ProcessFunc}.
Arguments run_job JSON_stringify {ProcessFunc}.
Arguments run_microtasks JSON_stringify {ProcessFunc}.

(* --------------------------------------------------------------------- *)
(** * The event loop                                                      *)
(* --------------------------------------------------------------------- *)

Section Loop.
Context (JSON_stringify : JSON -> string) (JSON_parse : string -> option JSON)
        {ProcessFunc : Type} (listenerCount : list Event -> Event -> nat).

(** What can happen to a provider: a call of one of its methods, an event
    of the socket, or the run of some microtasks. *)
Inductive Input : Type :=
| In_send (method : string) (params : JSValue)
| In_subscribe (tag : string) (param : list JSON) (processFunc : ProcessFunc)
| In_stopEvent (event : Event)
| In_open
| In_message (data : string)
| In_microtasks (fuel : nat).

Definition step (i : Input) (st : State ProcessFunc) : State ProcessFunc :=
  match i with
  | In_send method params => (send JSON_stringify method params st).2
  | In_subscribe tag param f => (_subscribe tag param f st).2
  | In_stopEvent event => _stopEvent listenerCount event st
  | In_open => (onopen st).1
  | In_message data => (onmessage JSON_parse data st).1
  | In_microtasks fuel => run_microtasks JSON_stringify fuel st
  end.

(** The identifiers [send] assigns ([const rid = NextId++]) to the calls
    of [send] among the inputs, in the order of the calls. *)
Fixpoint assigned_ids (inputs : list Input) (st : State ProcessFunc) : list Z :=
  match inputs with
  | [] => []
  | i :: rest =>
      match i with
      | In_send _ _ => NextId st :: assigned_ids rest (step i st)
      | _ => assigned_ids rest (step i st)
      end
  end.

(** A series of calls of [send], each given by its method and params. *)
Definition issue (calls : list (string * JSValue)) (st : State ProcessFunc)
    : State ProcessFunc :=
  foldl (fun s c => (send JSON_stringify c.1 c.2 s).2) st calls.

(** The payloads of a series of calls whose first gets the identifier
    [rid], in the order of the calls. *)
Fixpoint payloads_from (rid : Z) (calls : list (string * JSValue)) : list string :=
  match calls with
  | [] => []
  | c :: rest =>
      JSON_stringify (request_object c.1 c.2 rid) :: payloads_from (rid + 1) rest
  end.

(** Two calls of [_subscribe], either in one task ([same_task]) or in two
    tasks with the microtasks of the first run in between; then the
    microtasks are run. The result holds the promises returned to the two
    callers. *)
Definition subscribe_twice (same_task : bool) (fuel : nat) (tag : string)
    (param1 : list JSON) (f1 : ProcessFunc) (param2 : list JSON) (f2 : ProcessFunc)
    (st : State ProcessFunc) : nat * nat * State ProcessFunc :=
  let '(r1, s1) := _subscribe tag param1 f1 st in
  let s1' := if same_task then s1 else run_microtasks JSON_stringify fuel s1 in
  let '(r2, s2) := _subscribe tag param2 f2 s1' in
  (r1, r2, run_microtasks JSON_stringify fuel s2).

(** A socket message followed by the run of the microtasks. *)
Definition receive (fuel : nat) (data : string) (st : State ProcessFunc)
    : State ProcessFunc :=
  run_microtasks JSON_stringify fuel (onmessage JSON_parse data st).1.

(** No promise has been allocated at or above [next_promise]. *)
Definition fresh_promises (st : State ProcessFunc) : Prop :=
  forall p, (next_promise st <= p)%nat -> promises st !! p = None.

End Loop.

Arguments In_send {ProcessFunc}.
Arguments In_subscribe {ProcessFunc}.
Arguments In_stopEvent {ProcessFunc}.
Arguments In_open {ProcessFunc}.
Arguments In_message {ProcessFunc}.
Arguments In_microtasks {ProcessFunc}.

(** The state the constructor leaves: nothing is pending and the socket is
    not open yet. [next] is the module-level counter at that time and
    [events] the event list of the base provider. *)
Definition constructed {ProcessFunc : Type} (next : Z) (events : list Event)
    : State ProcessFunc :=
  mkState next false [] ∅ ∅ events [] [] [] ∅ O [].

(* --------------------------------------------------------------------- *)
(** * Operations the provider refuses                                     *)
(* --------------------------------------------------------------------- *)

(** Modelled from the spec: [Logger.errors.UNSUPPORTED_OPERATION] of
    @ethersproject/logger, the code of the UnsupportedOperation class of
    errors; the logger package is not among the sources. *)
Definition UNSUPPORTED_OPERATION : string := "UNSUPPORTED_OPERATION".

(** Modelled from the spec: [logger.throwError(message, code, params)] of
    @ethersproject/logger, which is not among the sources: it fails at
    once, synchronously, with an error of the given code that carries the
    message and the parameters (here the [operation]). *)
Definition throwError (message code operation : string) : Outcome :=
  Threw (JS.LoggerError message code operation).

Definition get_pollingInterval : Z := 0.

Definition resetEventsBlock (blockNumber : Z) : Outcome :=
  throwError "cannot reset events block on WebSocketProvider"
    UNSUPPORTED_OPERATION "resetEventBlock".

Definition set_pollingInterval (value : Z) : Outcome :=
  throwError "cannot set polling interval on WebSocketProvider"
    UNSUPPORTED_OPERATION "setPollingInterval".

Definition set_polling (value : bool) : Outcome :=
  if negb value then Returned
  else throwError "cannot set polling on WebSocketProvider"
         UNSUPPORTED_OPERATION "setPolling".

(** An UnsupportedOperation failure. *)
Definition unsupported_operation (o : Outcome) : Prop :=
  exists message operation,
    o = Threw (JS.LoggerError message UNSUPPORTED_OPERATION operation).


(* --------------------------------------------------------------------- *)
(** * Statements of the specification                                     *)
(* --------------------------------------------------------------------- *)

(** The error the spec describes for an error object: the message and the
    code of the backend, "unknown error" where there is no message and
    null where there is no code. *)
Definition spec_backend_error (efields : list (string * JSON)) (e : JSError) : Prop :=
  message e = match JS.field "message" efields with
              | Some m => JS.String m
              | None => "unknown error"
              end /\
  code e = Some (default JNull (JS.field "code" efields)).

(* --------------------------------------------------------------------- *)
(** * Concrete instances for the examples                                 *)
(* --------------------------------------------------------------------- *)

Module Example.

Definition quote : string := String.String (ascii_of_nat 34) EmptyString.

(** A JSON printer for values whose strings need no escaping. *)
Fixpoint stringify (v : JSON) : string :=
  match v with
  | JNull => "null"
  | JBool true => "true"
  | JBool false => "false"
  | JNum n => pretty n
  | JStr s => quote +:+ s +:+ quote
  | JArr items =>
      "[" +:+
      (fix go (l : list JSON) : string :=
         match l with
         | [] => ""
         | x :: r =>
             match r with
             | [] => stringify x
             | _ :: _ => stringify x +:+ "," +:+ go r
             end
         end) items +:+ "]"
  | JObj fields =>
      "{" +:+
      (fix go (l : list (string * JSON)) : string :=
         match l with
         | [] => ""
         | (k, x) :: r =>
             let kx := quote +:+ k +:+ quote +:+ ":" +:+ stringify x in
             match r with
             | [] => kx
             | _ :: _ => kx +:+ "," +:+ go r
             end
         end) fields +:+ "}"
  end.

(** A socket message carries its parsed value next to its text; the
    parser of the examples answers the value of the message at hand. *)
Definition parse_as (v : JSON) : string -> option JSON := fun _ => Some v.

(** Dispatch closures are named by numbers. *)
Definition Func : Type := nat.

(** A provider, just constructed, on which [send(method, params)] was
    called once: the call has id 1 and promise 0. *)
Definition one_call (method : string) (params : JSValue) : State Func :=
  (send stringify method params (constructed 1 [])).2.

(** {id: 1, error: {code: 0, message: "bad"}} *)
Definition error_code_zero : JSON :=
  JObj [("id", JNum 1);
        ("error", JObj [("code", JNum 0); ("message", JStr "bad")])].

(** {id: 1, error: {code: -32000, message: "bad"}} *)
Definition error_bad : JSON :=
  JObj [("id", JNum 1);
        ("error", JObj [("code", JNum (-32000)); ("message", JStr "bad")])].

End Example.

Module Messages.

(** {id: 99, result: "0x1"} *)
Definition stray_response : JSON :=
  JObj [("id", JNum 99); ("result", JStr "0x1")].

(** {method: "eth_subscription", params: {subscription: "0xdead", result: 1}} *)
Definition unknown_push : JSON :=
  JObj [("method", JStr "eth_subscription");
        ("params", JObj [("subscription", JStr "0xdead"); ("result", JNum 1)])].

(** {method: "eth_subscription"} *)
Definition push_without_params : JSON :=
  JObj [("method", JStr "eth_subscription")].

(** {method: "net_version"} *)
Definition other_method : JSON :=
  JObj [("method", JStr "net_version")].

End Messages.

Module Scenario.

(** {id: 1, result: "0xcafe"} *)
Definition subscribed : JSON :=
  JObj [("id", JNum 1); ("result", JStr "0xcafe")].

(** {method: "eth_subscription",
     params: {subscription: "0xcafe", result: {number: "0x10"}}} *)
Definition push_0xcafe : JSON :=
  JObj [("method", JStr "eth_subscription");
        ("params", JObj [("subscription", JStr "0xcafe");
                         ("result", JObj [("number", JStr "0x10")])])].

(** A ready provider with the "block" subscription established under the
    subscription id "0xcafe" and its one call answered. *)
Definition block_subscribed : State Example.Func :=
  mkState 2 true [] {[ "block" := 0%nat ]}
    {[ "0xcafe" := mkSubscription "block" 7%nat ]} [] [] [] []
    {[ 0%nat := Done (Fulfilled (Some (JStr "0xcafe"))) ]} 1 [].

Definition block_event : Event := mkEvent "block" "block".

(** No listener is left. *)
Definition no_listeners : list Event -> Event -> nat := fun _ _ => O.

End Scenario.

(* --------------------------------------------------------------------- *)
(** * Histories of a provider and what they preserve                      *)
(* --------------------------------------------------------------------- *)

Section History.
Context (JSON_stringify : JSON -> string) (JSON_parse : string -> option JSON)
        {ProcessFunc : Type} (listenerCount : list Event -> Event -> nat).

(** A provider after a series of inputs. *)
Definition run (inputs : list (Input (ProcessFunc:=ProcessFunc)))
    (st : State ProcessFunc) : State ProcessFunc :=
  foldl (fun s i => step JSON_stringify JSON_parse listenerCount i s) st inputs.

(** The keys of [_requests] are the numerals of increasing identifiers
    that [send] has already handed out. *)
Definition requests_wf (st : State ProcessFunc) : Prop :=
  0 <= NextId st /\
  exists zs : list Z,
    map fst (_requests st) = map pretty zs /\
    StronglySorted Z.lt zs /\
    Forall (fun z => 0 <= z < NextId st) zs.

(** Two states that differ at most in the promise store, the promise
    counter and the microtask queue. *)
Definition same_provider (st st' : State ProcessFunc) : Prop :=
  NextId st' = NextId st /\ _wsReady st' = _wsReady st /\
  _requests st' = _requests st /\ _subIds st' = _subIds st /\
  _subs st' = _subs st /\ _events st' = _events st /\
  websocket_sent st' = websocket_sent st /\
  console_warn st' = console_warn st /\ dispatched st' = dispatched st.

(** What one operation of the provider can do to the counter, the
    readiness flag and the table of requests. *)
Inductive evolves (st st' : State ProcessFunc) : Prop :=
| ev_same :
    NextId st' = NextId st -> _wsReady st' = _wsReady st ->
    _requests st' = _requests st -> evolves st st'
| ev_send (r : InflightRequest) :
    NextId st' = NextId st + 1 -> _wsReady st' = _wsReady st ->
    _requests st' = Obj.set (pretty (NextId st)) r (_requests st) ->
    evolves st st'
| ev_delete (k : string) :
    NextId st' = NextId st -> _wsReady st' = _wsReady st ->
    _requests st' = Obj.delete k (_requests st) -> evolves st st'
| ev_open :
    NextId st' = NextId st -> _wsReady st' = true ->
    _requests st' = _requests st -> evolves st st'.

(** An operation that calls no dispatch function, leaves the readiness
    flag alone and, on a provider that is not ready, transmits nothing. *)
Definition quiet (st st' : State ProcessFunc) : Prop :=
  dispatched st' = dispatched st /\
  _wsReady st' = _wsReady st /\
  (_wsReady st = false -> websocket_sent st' = websocket_sent st).

Definition is_open (i : Input (ProcessFunc:=ProcessFunc)) : bool :=
  match i with In_open => true | _ => false end.

Definition is_message (i : Input (ProcessFunc:=ProcessFunc)) : bool :=
  match i with In_message _ => true | _ => false end.

End History.

Arguments evolves {ProcessFunc}.
Arguments same_provider {ProcessFunc}.
Arguments requests_wf {ProcessFunc}.
Arguments quiet {ProcessFunc}.
Arguments is_open {ProcessFunc}.
Arguments is_message {ProcessFunc}.

Module Instances.

(** A provider whose socket has opened before any call. *)
Definition opened : State Example.Func :=
  (onopen (constructed 1 [])).1.

(** A call, a message and a run of the microtasks. *)
Definition history : list (Input (ProcessFunc:=Example.Func)) :=
  [In_send "eth_chainId" undefined; In_message "raw"; In_microtasks 3].

Definition two_calls : list (string * JSValue) :=
  [("eth_blockNumber", Some (JArr [])); ("eth_chainId", undefined)].

Definition one_more_call : list (string * JSValue) :=
  [("net_version", undefined)].

(** Calls, a subscription, the open signal and microtasks, but no
    message. *)
Definition silent_history : list (Input (ProcessFunc:=Example.Func)) :=
  [In_send "eth_chainId" undefined;
   In_subscribe "block" [JStr "newHeads"] 1%nat;
   In_microtasks 3; In_open; In_microtasks 3].

(** {id: 1, result: "0x1"} and {id: 2, result: "0x2"}, told apart by the
    text of the message. *)
Definition first_answer : JSON := JObj [("id", JNum 1); ("result", JStr "0x1")].
Definition second_answer : JSON := JObj [("id", JNum 2); ("result", JStr "0x2")].

Definition parse_answers (data : string) : option JSON :=
  if (data =? "first")%string then Some first_answer else Some second_answer.

End Instances.

(* ===================================================================== *)
(** * Properties                                                          *)
(* ===================================================================== *)

(** ** Ordered objects *)

Lemma Obj_get_delete_eq {V : Type} (k : string) (o : list (string * V)) :
  Obj.get k (Obj.delete k o) = None.
Proof.
  induction o as [|[k' v] o IH]; simpl; [reflexivity|].
  destruct (String.eqb_spec k k') as [->|Hne]; simpl; [exact IH|].
  destruct (String.eqb_spec k k'); [contradiction|exact IH].
Qed.

Lemma Obj_delete_absent {V : Type} (k : string) (o : list (string * V)) :
  Obj.get k o = None -> Obj.delete k o = o.
Proof.
  induction o as [|[k' v] o IH]; simpl; [reflexivity|].
  destruct (String.eqb_spec k k'); [discriminate|].
  intros H. rewrite IH; auto.
Qed.

(** ** The request correlator: responses *)

Section Correlator.
Context (JSON_parse : string -> option JSON) {ProcessFunc : Type}.

Implicit Types (st : State ProcessFunc) (fields : list (string * JSON)).

Lemma settle_pending st p s reactions :
  promises st !! p = Some (Pending reactions) ->
  promises (settle p s st) !! p = Some (Done s).
Proof.
  intros H. unfold settle. rewrite H. simpl. apply lookup_insert_eq.
Qed.

Lemma settle_requests st p s : _requests (settle p s st) = _requests st.
Proof. unfold settle. destruct (promises st !! p) as [[|]|]; reflexivity. Qed.

(** The state and outcome of the handler on a message that carries an id
    which is not null. *)
Lemma onmessage_response data fields idv st :
  JSON_parse data = Some (JObj fields) ->
  JS.field "id" fields = Some idv ->
  idv <> JNull ->
  onmessage JSON_parse data st = handle_response data (JObj fields) (Some idv) st.
Proof.
  intros Hp Hid Hn. unfold onmessage, try_get. rewrite Hp. simpl. rewrite Hid.
  destruct idv; try reflexivity. contradiction.
Qed.


Lemma response_result data fields idv request r st :
  JSON_parse data = Some (JObj fields) ->
  JS.field "id" fields = Some idv -> idv <> JNull ->
  Obj.get (JS.String idv) (_requests st) = Some request ->
  JS.field "result" fields = Some r ->
  onmessage JSON_parse data st =
    (settle (callback request) (Fulfilled (Some r))
       (set_requests (Obj.delete (JS.String idv) (_requests st)) st), Returned).
Proof.
  intros Hp Hid Hn Hreq Hr. rewrite (onmessage_response _ _ _ _ Hp Hid Hn).
  unfold handle_response, try_get. simpl. rewrite Hr, Hreq. reflexivity.
Qed.

Lemma response_error data fields idv request efields st :
  JSON_parse data = Some (JObj fields) ->
  JS.field "id" fields = Some idv -> idv <> JNull ->
  Obj.get (JS.String idv) (_requests st) = Some request ->
  JS.field "result" fields = None ->
  JS.field "error" fields = Some (JObj efields) ->
  onmessage JSON_parse data st =
    (settle (callback request)
       (Rejected (mkError (message_or (JS.field "message" efields) "unknown error")
                          (Some (code_or_null (JS.field "code" efields)))
                          (Some data)))
       (set_requests (Obj.delete (JS.String idv) (_requests st)) st), Returned).
Proof.
  intros Hp Hid Hn Hreq Hr He. rewrite (onmessage_response _ _ _ _ Hp Hid Hn).
  unfold handle_response, try_get. simpl. rewrite Hr, He, Hreq. reflexivity.
Qed.

Lemma response_neither data fields idv request st :
  JSON_parse data = Some (JObj fields) ->
  JS.field "id" fields = Some idv -> idv <> JNull ->
  Obj.get (JS.String idv) (_requests st) = Some request ->
  JS.field "result" fields = None ->
  JS.truthy (JS.field "error" fields) = false ->
  onmessage JSON_parse data st =
    (settle (callback request) (Rejected (mkError "unknown error" None None))
       (set_requests (Obj.delete (JS.String idv) (_requests st)) st), Returned).
Proof.
  intros Hp Hid Hn Hreq Hr He. rewrite (onmessage_response _ _ _ _ Hp Hid Hn).
  unfold handle_response, try_get. simpl. rewrite Hr, He, Hreq. reflexivity.
Qed.

(** The pending call is gone after the handler, whatever the response. *)
Lemma response_removes data fields idv st :
  Obj.get (JS.String idv) (_requests (handle_response data (JObj fields) (Some idv) st).1)
  = None.
Proof.
  unfold handle_response, try_get, request_callback, callback_call. simpl.
  destruct (JS.field "result" fields); simpl.
  - destruct (Obj.get _ (_requests st)); simpl;
      rewrite ?settle_requests; apply Obj_get_delete_eq.
  - destruct (JS.field "error" fields) as [err|]; simpl.
    + destruct err; simpl;
        repeat match goal with
               | |- context [if ?x then _ else _] => destruct x; simpl
               end;
        destruct (Obj.get _ (_requests st)); simpl;
        rewrite ?settle_requests; apply Obj_get_delete_eq.
    + destruct (Obj.get _ (_requests st)); simpl;
        rewrite ?settle_requests; apply Obj_get_delete_eq.
Qed.



(** Without a pending call for the id, [request] is undefined and the call
    of its callback raises a TypeError; nothing is settled. *)
Lemma unmatched_id_raises data fields idv st :
  JSON_parse data = Some (JObj fields) ->
  JS.field "id" fields = Some idv -> idv <> JNull ->
  Obj.get (JS.String idv) (_requests st) = None ->
  onmessage JSON_parse data st = (st, Threw JS.TypeError).
Proof.
  intros Hp Hid Hn Hreq. rewrite (onmessage_response _ _ _ _ Hp Hid Hn).
  unfold handle_response, try_get, request_callback. simpl. rewrite Hreq.
  rewrite (Obj_delete_absent _ _ Hreq).
  assert (Hst : set_requests (_requests st) st = st) by (destruct st; reflexivity).
  rewrite Hst.
  destruct (JS.field "result" fields); [reflexivity|].
  destruct (JS.field "error" fields) as [err|]; [|reflexivity].
  destruct err; simpl; try reflexivity;
    match goal with
    | |- context [if ?x then _ else _] => destruct x; reflexivity
    end.
Qed.

End Correlator.




(** C2 (at a failing input). With call 1 pending, the response
    {id: 99, result: "0x1"} makes the handler raise a TypeError. *)
Theorem stray_response_raises :
  onmessage (Example.parse_as Messages.stray_response) "raw"
    (Example.one_call "eth_blockNumber" undefined)
  = (Example.one_call "eth_blockNumber" undefined, Threw JS.TypeError).
Proof. vm_compute. reflexivity. Qed.

(** ** The event router: messages that are neither *)

Section Router.
Context (JSON_parse : string -> option JSON) {ProcessFunc : Type}.

Implicit Types (st : State ProcessFunc).


End Router.



(** ** Operations the connection model does not support *)

(** C7. Resetting the events block and setting the polling interval fail
    at once with an UNSUPPORTED_OPERATION error, whatever the argument;
    neither returns normally. *)
Theorem unsupported_operations (blockNumber value : Z) :
  unsupported_operation (resetEventsBlock blockNumber) /\
  unsupported_operation (set_pollingInterval value) /\
  resetEventsBlock blockNumber <> Returned /\
  set_pollingInterval value <> Returned.
Proof.
  unfold unsupported_operation, resetEventsBlock, set_pollingInterval, throwError.
  repeat split; [eauto | eauto | discriminate | discriminate].
Qed.

(** C9. The polling setter is asymmetric: false returns without an error,
    true throws an UNSUPPORTED_OPERATION error. *)
Theorem polling_setter_asymmetric :
  set_polling false = Returned /\ unsupported_operation (set_polling true).
Proof.
  split; [reflexivity|]. unfold unsupported_operation, set_polling, throwError.
  simpl. eauto.
Qed.

(** ** Request identifiers *)

Section Identifiers.
Context (JSON_stringify : JSON -> string) (JSON_parse : string -> option JSON)
        {ProcessFunc : Type} (listenerCount : list Event -> Event -> nat).

Implicit Types (st : State ProcessFunc).

Lemma NextId_settle st p s : NextId (settle p s st) = NextId st.
Proof. unfold settle. destruct (promises st !! p) as [[|]|]; reflexivity. Qed.

Lemma NextId_then st p h d : NextId (then_ p h d st) = NextId st.
Proof. unfold then_. destruct (promises st !! p) as [[|]|]; reflexivity. Qed.

Lemma NextId_send method params st :
  NextId (send JSON_stringify method params st).2 = NextId st + 1.
Proof. unfold send. simpl. destruct (_wsReady st); reflexivity. Qed.

(** [send] files the request under the decimal numeral of the identifier
    it took from the counter, with the payload that names this identifier. *)
Lemma send_registers method params st :
  let rid := NextId st in
  Obj.get (pretty rid) (_requests (send JSON_stringify method params st).2)
  = Some (mkRequest (send JSON_stringify method params st).1
            (JSON_stringify (request_object method params rid))).
Proof.
  unfold send. simpl.
  assert (H : forall (o : list (string * InflightRequest)) k v,
             Obj.get k (Obj.set k v o) = Some v).
  { induction o as [|[k' v'] o IH]; intros k v; simpl.
    - rewrite String.eqb_refl. reflexivity.
    - destruct (String.eqb_spec k k'); simpl.
      + rewrite String.eqb_refl. reflexivity.
      + destruct (String.eqb_spec k k'); [contradiction|]. apply IH. }
  destruct (_wsReady st); simpl; apply H.
Qed.

Lemma NextId_subscribe tag param f st :
  NextId (_subscribe tag param f st).2 = NextId st.
Proof.
  unfold _subscribe. simpl.
  destruct (_subIds st !! tag); simpl; rewrite NextId_then; [reflexivity|].
  unfold set_subIds. simpl. rewrite NextId_then. reflexivity.
Qed.

Lemma NextId_stopEvent event st :
  NextId (_stopEvent listenerCount event st) = NextId st.
Proof.
  assert (H : forall t, NextId (stop_tag t st) = NextId st).
  { intros t. unfold stop_tag. destruct (_subIds st !! t); [|reflexivity].
    simpl. rewrite NextId_then. reflexivity. }
  unfold _stopEvent.
  repeat match goal with
         | |- context [if ?b then _ else _] => destruct b
         end; auto.
Qed.

Lemma NextId_flush ids st : NextId (flush ids st).1 = NextId st.
Proof.
  revert st. induction ids as [|id ids IH]; intros st; simpl; [reflexivity|].
  destruct (Obj.get id (_requests st)); [|reflexivity]. rewrite IH. reflexivity.
Qed.

Lemma NextId_onopen st : NextId (onopen st).1 = NextId st.
Proof. unfold onopen. rewrite NextId_flush. reflexivity. Qed.

Lemma NextId_request_callback request error result st :
  NextId (request_callback request error result st).1 = NextId st.
Proof.
  unfold request_callback, callback_call.
  destruct request; [|reflexivity]. destruct error; simpl; apply NextId_settle.
Qed.

Lemma NextId_onmessage data st :
  NextId (onmessage JSON_parse data st).1 = NextId st.
Proof.
  unfold onmessage, handle_response, handle_subscription, try_get.
  repeat first
    [ reflexivity
    | rewrite NextId_request_callback
    | match goal with
      | |- context [match ?x with _ => _ end] => destruct x; simpl
      end ].
Qed.

Lemma NextId_run_job j st : NextId st <= NextId (run_job JSON_stringify j st).
Proof.
  destruct j as [h d s|target source|p values]; simpl.
  - destruct h, s; simpl; rewrite ?NextId_settle; simpl; try lia.
    + destruct (_wsReady st); simpl; lia.
    + destruct (_subs st !! JS.PropertyKey v); rewrite ?NextId_settle; simpl; [|lia].
      destruct (_wsReady st); simpl; rewrite ?NextId_settle; simpl; lia.
  - rewrite NextId_then. lia.
  - rewrite NextId_settle. lia.
Qed.

Lemma NextId_run_microtasks fuel st :
  NextId st <= NextId (run_microtasks JSON_stringify fuel st).
Proof.
  revert st. induction fuel as [|fuel IH]; intros st; simpl; [lia|].
  destruct (microtasks st) as [|j rest]; [lia|].
  etransitivity; [|apply IH]. etransitivity; [|apply NextId_run_job]. simpl. lia.
Qed.

(** No input makes the counter go back, and a call of [send] advances it. *)
Lemma NextId_step i st :
  NextId st <= NextId (step JSON_stringify JSON_parse listenerCount i st) /\
  (forall method params, i = In_send method params ->
     NextId st < NextId (step JSON_stringify JSON_parse listenerCount i st)).
Proof.
  destruct i; cbn [step];
    rewrite ?NextId_send, ?NextId_subscribe, ?NextId_stopEvent,
            ?NextId_onopen, ?NextId_onmessage;
    (split; [try lia; apply NextId_run_microtasks | intros; try discriminate; lia]).
Qed.

Lemma assigned_ids_bound inputs st :
  Forall (fun rid => NextId st <= rid)
    (assigned_ids JSON_stringify JSON_parse listenerCount inputs st).
Proof.
  revert st. induction inputs as [|i inputs IH]; intros st; cbn [assigned_ids];
    [constructor|].
  pose proof (NextId_step i st) as [Hle _].
  assert (Hrest : Forall (fun rid => NextId st <= rid)
            (assigned_ids JSON_stringify JSON_parse listenerCount inputs
               (step JSON_stringify JSON_parse listenerCount i st))).
  { eapply Forall_impl; [apply IH|]. simpl. intros; lia. }
  destruct i; try exact Hrest. constructor; [lia|exact Hrest].
Qed.


End Identifiers.

(** ** Decimal numerals and the order of Object.keys *)

Lemma digit_pretty_N_char (d : N) :
  (d < 10)%N -> Obj.digit (pretty_N_char d) = Some d.
Proof.
  intros Hd.
  assert (d = 0 \/ d = 1 \/ d = 2 \/ d = 3 \/ d = 4 \/ d = 5 \/ d = 6 \/ d = 7
          \/ d = 8 \/ d = 9)%N as H by lia.
  repeat (destruct H as [->|H]; [reflexivity|]). subst d. reflexivity.
Qed.

(** Reading the numeral of [x] multiplies the accumulator by a power of
    ten and adds [x]. *)
Lemma digits_pretty_N_go (x : N) :
  exists k : N, forall acc s,
    Obj.digits acc (pretty_N_go x s) = Obj.digits (acc * 10 ^ k + x)%N s.
Proof.
  induction (N.lt_wf_0 x) as [x _ IH].
  destruct (N.eq_dec x 0%N) as [->|Hx].
  - exists 0%N. intros acc s. rewrite pretty_N_go_0. f_equal. lia.
  - assert (Hpos : (0 < x)%N) by lia.
    destruct (IH (x `div` 10)%N) as [k Hk]; [apply N.div_lt; lia|].
    exists (N.succ k). intros acc s.
    rewrite pretty_N_go_step by exact Hpos. rewrite Hk. simpl.
    rewrite digit_pretty_N_char by (apply N.mod_lt; lia).
    f_equal. rewrite N.pow_succ_r'.
    pose proof (N.div_mod x 10 ltac:(lia)) as Hdm. lia.
Qed.

Lemma digits_pretty (n : N) : Obj.digits 0%N (pretty n) = Some n.
Proof.
  unfold pretty, pretty_N. destruct (decide (n = 0%N)) as [->|Hn]; [reflexivity|].
  destruct (digits_pretty_N_go n) as [k Hk]. rewrite Hk. simpl. f_equal.
Qed.

Lemma array_index_pretty (n : N) :
  Obj.array_index (pretty n) = if (n <? 4294967295)%N then Some n else None.
Proof.
  unfold Obj.array_index. rewrite digits_pretty, String.eqb_refl. reflexivity.
Qed.

Lemma pretty_Z_nonneg (z : Z) : 0 <= z -> pretty z = pretty (Z.to_N z).
Proof. intros Hz. destruct z as [|p|p]; [reflexivity|reflexivity|lia]. Qed.

Lemma sort_index_sorted (l : list (N * string)) :
  StronglySorted Obj.index_le l -> Obj.sort_index l = l.
Proof.
  induction 1 as [|x l Hl IH Hx]; [reflexivity|].
  unfold Obj.sort_index in *. simpl. rewrite IH.
  destruct l as [|y r]; [reflexivity|]. simpl.
  inversion Hx as [|? ? Hxy _]; subst. unfold Obj.index_le in Hxy.
  destruct (N.leb_spec x.1 y.1); [reflexivity|lia].
Qed.

Lemma index_keys_numerals (zs : list Z) :
  Forall (fun z => 0 <= z) zs ->
  Obj.index_keys (map pretty zs)
  = map (fun z => (Z.to_N z, pretty z)) (List.filter (fun z => z <? 4294967295) zs).
Proof.
  induction 1 as [|z zs Hz _ IH]; [reflexivity|].
  simpl. rewrite (pretty_Z_nonneg z Hz) at 1. rewrite array_index_pretty, IH.
  destruct (N.ltb_spec (Z.to_N z) 4294967295), (Z.ltb_spec z 4294967295);
    try lia; reflexivity.
Qed.

Lemma name_keys_numerals (zs : list Z) :
  Forall (fun z => 0 <= z) zs ->
  Obj.name_keys (map pretty zs)
  = map pretty (List.filter (fun z => negb (z <? 4294967295)) zs).
Proof.
  induction 1 as [|z zs Hz _ IH]; [reflexivity|].
  unfold Obj.name_keys in *. simpl.
  rewrite (pretty_Z_nonneg z Hz) at 1. rewrite array_index_pretty, IH.
  destruct (N.ltb_spec (Z.to_N z) 4294967295), (Z.ltb_spec z 4294967295);
    try lia; simpl; rewrite <- ?(pretty_Z_nonneg z Hz); reflexivity.
Qed.

Lemma filter_none {A : Type} (p : A -> bool) (l : list A) :
  Forall (fun x => p x = false) l -> List.filter p l = [].
Proof. induction 1 as [|x l Hx _ IH]; simpl; [reflexivity|]. rewrite Hx. exact IH. Qed.

Lemma filter_all {A : Type} (p : A -> bool) (l : list A) :
  Forall (fun x => p x = true) l -> List.filter p l = l.
Proof.
  induction 1 as [|x l Hx _ IH]; simpl; [reflexivity|]. rewrite Hx, IH. reflexivity.
Qed.

(** An increasing list splits at a threshold into the part below it
    followed by the rest. *)
Lemma filter_threshold (t : Z) (zs : list Z) :
  StronglySorted Z.lt zs ->
  (List.filter (fun z => z <? t) zs ++ List.filter (fun z => negb (z <? t)) zs)%list
  = zs.
Proof.
  induction 1 as [|z zs Hs IH Hz]; [reflexivity|]. simpl.
  destruct (Z.ltb_spec z t) as [Hlt|Hge]; simpl; [rewrite IH; reflexivity|].
  rewrite filter_none, filter_all; [reflexivity| |].
  - eapply Forall_impl; [exact Hz|]. simpl. intros y Hy.
    destruct (Z.ltb_spec y t); [lia|reflexivity].
  - eapply Forall_impl; [exact Hz|]. simpl. intros y Hy.
    destruct (Z.ltb_spec y t); [lia|reflexivity].
Qed.

Lemma index_sorted_numerals (zs : list Z) :
  StronglySorted Z.lt zs -> Forall (fun z => 0 <= z) zs ->
  StronglySorted Obj.index_le
    (map (fun z => (Z.to_N z, pretty z)) (List.filter (fun z => z <? 4294967295) zs)).
Proof.
  induction 1 as [|z zs Hs IH Hz]; intros Hnn; [constructor|].
  inversion Hnn as [|? ? Hz0 Hnn']; subst. simpl.
  destruct (z <? 4294967295); [|apply IH; exact Hnn'].
  simpl. constructor; [apply IH; exact Hnn'|].
  rewrite Forall_map. clear IH Hs.
  induction zs as [|y zs IHz]; simpl; [constructor|].
  inversion Hz as [|? ? Hy Hz']; subst. inversion Hnn' as [|? ? Hy0 Hnn2]; subst.
  assert (Hrest : Forall (fun y => Obj.index_le (Z.to_N z, pretty z) (Z.to_N y, pretty y))
            (List.filter (fun z => z <? 4294967295) zs)).
  { apply IHz; [exact Hz'| |exact Hnn2]. constructor; [exact Hz0|exact Hnn2]. }
  destruct (y <? 4294967295); [|exact Hrest].
  constructor; [|exact Hrest]. unfold Obj.index_le. simpl. lia.
Qed.

(** Object.keys of an object whose keys are the numerals of increasing
    non-negative integers lists them in that order. *)
Lemma keys_numerals {V : Type} (o : list (string * V)) (zs : list Z) :
  map fst o = map pretty zs ->
  StronglySorted Z.lt zs -> Forall (fun z => 0 <= z) zs ->
  Obj.keys o = map pretty zs.
Proof.
  intros Hk Hs Hnn. unfold Obj.keys. rewrite Hk.
  rewrite index_keys_numerals, name_keys_numerals by exact Hnn.
  rewrite sort_index_sorted by (apply index_sorted_numerals; assumption).
  rewrite map_map. simpl. rewrite <- map_app, filter_threshold by exact Hs.
  reflexivity.
Qed.

(** ** The readiness gate *)

Lemma Obj_set_fresh {V : Type} (k : string) (v : V) (o : list (string * V)) :
  k ∉ map fst o -> Obj.set k v o = (o ++ [(k, v)])%list.
Proof.
  induction o as [|[k' v'] o IH]; simpl; intros Hk; [reflexivity|].
  destruct (String.eqb_spec k k') as [->|Hne].
  - exfalso. apply Hk. left.
  - rewrite IH; [reflexivity|]. intros Hin. apply Hk. right. exact Hin.
Qed.

Lemma Obj_get_member {V : Type} (k : string) (v : V) (o : list (string * V)) :
  NoDup (map fst o) -> (k, v) ∈ o -> Obj.get k o = Some v.
Proof.
  induction o as [|[k' v'] o IH]; simpl; intros Hnd Hin.
  - inversion Hin.
  - apply NoDup_cons in Hnd as [Hk' Hnd].
    apply elem_of_cons in Hin as [Heq|Hin].
    + inversion Heq; subst. rewrite String.eqb_refl. reflexivity.
    + destruct (String.eqb_spec k k') as [->|Hne]; [|apply IH; assumption].
      exfalso. apply Hk'. apply list_elem_of_fmap. exists (k', v). split; [reflexivity|exact Hin].
Qed.

Section Gate.
Context (JSON_stringify : JSON -> string) {ProcessFunc : Type}.

Implicit Types (st : State ProcessFunc).

(** What [send] does to the socket and to the table of requests. *)
Lemma send_effect method params st :
  let payload := JSON_stringify (request_object method params (NextId st)) in
  let st' := (send JSON_stringify method params st).2 in
  _wsReady st' = _wsReady st /\
  NextId st' = NextId st + 1 /\
  _requests st' = Obj.set (pretty (NextId st))
                    (mkRequest (next_promise st) payload) (_requests st) /\
  websocket_sent st' = if _wsReady st then (websocket_sent st ++ [payload])%list
                       else websocket_sent st.
Proof. unfold send. simpl. destruct (_wsReady st); simpl; auto. Qed.

(** While the socket is not open, calls pile up in [_requests] under the
    numerals of consecutive identifiers and nothing is transmitted. *)
Lemma issue_not_ready calls st zs :
  _wsReady st = false ->
  map fst (_requests st) = map pretty zs ->
  Forall (fun z => z < NextId st) zs ->
  let st' := issue JSON_stringify calls st in
  _wsReady st' = false /\
  websocket_sent st' = websocket_sent st /\
  NextId st' = NextId st + Z.of_nat (length calls) /\
  map fst (_requests st')
    = map pretty (zs ++ seqZ (NextId st) (Z.of_nat (length calls)))%list /\
  map (fun kv => payload kv.2) (_requests st')
    = (map (fun kv => payload kv.2) (_requests st)
       ++ payloads_from JSON_stringify (NextId st) calls)%list.
Proof.
  revert st zs. induction calls as [|c calls IH]; intros st zs Hready Hkeys Hlt.
  - simpl. rewrite !app_nil_r. repeat split; auto. lia.
  - pose proof (send_effect c.1 c.2 st) as (Hr & Hn & Hq & Hs).
    rewrite Hready in Hr, Hs.
    assert (Hfresh : pretty (NextId st) ∉ map fst (_requests st)).
    { rewrite Hkeys. intros Hin. apply list_elem_of_fmap in Hin as (z & Hz & Hin).
      apply (inj pretty) in Hz. subst z.
      rewrite Forall_forall in Hlt. specialize (Hlt _ Hin). lia. }
    rewrite Obj_set_fresh in Hq by exact Hfresh.
    specialize (IH (send JSON_stringify c.1 c.2 st).2 (zs ++ [NextId st])%list Hr).
    destruct IH as (IHr & IHs & IHn & IHk & IHp).
    + rewrite Hq, !map_app, Hkeys. reflexivity.
    + rewrite Hn. apply Forall_app. split.
      * eapply Forall_impl; [exact Hlt|]. simpl. intros; lia.
      * repeat constructor. lia.
    + change (issue JSON_stringify (c :: calls) st)
        with (issue JSON_stringify calls (send JSON_stringify c.1 c.2 st).2).
      cbn [length payloads_from]. repeat split.
      * exact IHr.
      * rewrite IHs, Hs. reflexivity.
      * rewrite IHn, Hn. lia.
      * rewrite IHk, Hn, <- app_assoc. do 2 f_equal.
        rewrite Nat2Z.inj_succ, (seqZ_cons (NextId st)) by lia.
        simpl. f_equal. f_equal; lia.
      * rewrite IHp, Hq, Hn, map_app, <- app_assoc. reflexivity.
Qed.

Lemma flush_sends (o : list (string * InflightRequest)) st :
  Forall (fun kv => Obj.get kv.1 (_requests st) = Some kv.2) o ->
  (flush (map fst o) st).2 = Returned /\
  _wsReady (flush (map fst o) st).1 = _wsReady st /\
  websocket_sent (flush (map fst o) st).1
    = (websocket_sent st ++ map (fun kv => payload kv.2) o)%list.
Proof.
  revert st. induction o as [|[k v] o IH]; intros st Hall; simpl.
  - rewrite app_nil_r. auto.
  - inversion Hall as [|? ? Hkv Hall']; subst. simpl in Hkv. rewrite Hkv.
    destruct (IH (websocket_send (payload v) st) Hall') as (H1 & H2 & H3).
    repeat split; [exact H1|exact H2|]. rewrite H3. simpl.
    rewrite <- app_assoc. reflexivity.
Qed.

Lemma seqZ_increasing (m : Z) (k : nat) : StronglySorted Z.lt (seqZ m (Z.of_nat k)).
Proof.
  revert m. induction k as [|k IH]; intros m.
  - rewrite seqZ_nil by reflexivity. constructor.
  - rewrite seqZ_cons by lia.
    replace (Z.pred (Z.of_nat (S k))) with (Z.of_nat k) by lia.
    constructor; [apply IH|]. apply Forall_seqZ. intros; lia.
Qed.

(** C3. Calls issued on a fresh provider while the socket is not open are
    not transmitted; when the socket opens, the socket receives exactly
    their payloads, once each, in the order of the calls; and once the
    provider is ready, every call is transmitted at once and the provider
    stays ready. *)
Theorem readiness_gate calls st0 :
  _wsReady st0 = false ->
  _requests st0 = [] ->
  0 <= NextId st0 ->
  let st1 := issue JSON_stringify calls st0 in
  websocket_sent st1 = websocket_sent st0 /\
  (onopen st1).2 = Returned /\
  websocket_sent (onopen st1).1
    = (websocket_sent st0 ++ payloads_from JSON_stringify (NextId st0) calls)%list /\
  _wsReady (onopen st1).1 = true /\
  (forall method params st,
     _wsReady st = true ->
     websocket_sent (send JSON_stringify method params st).2
       = (websocket_sent st
          ++ [JSON_stringify (request_object method params (NextId st))])%list /\
     _wsReady (send JSON_stringify method params st).2 = true).
Proof.
  intros Hready Hempty Hnn st1.
  destruct (issue_not_ready calls st0 [] Hready) as (Hr & Hs & Hn & Hk & Hp).
  { rewrite Hempty. reflexivity. }
  { constructor. }
  fold st1 in Hr, Hs, Hn, Hk, Hp. rewrite Hempty in Hp. simpl in Hk, Hp.
  set (ids := seqZ (NextId st0) (Z.of_nat (length calls))) in *.
  assert (Hkeys : Obj.keys (_requests st1) = map fst (_requests st1)).
  { rewrite Hk. apply keys_numerals; [exact Hk|apply seqZ_increasing|].
    apply Forall_seqZ. intros; lia. }
  assert (Hnd : NoDup (map fst (_requests st1))).
  { rewrite Hk. apply (NoDup_fmap_2 _). apply NoDup_seqZ. }
  assert (Hall : Forall (fun kv => Obj.get kv.1 (_requests (set_wsReady true st1))
                                   = Some kv.2) (_requests st1)).
  { apply Forall_forall. intros [k v] Hin. simpl.
    apply Obj_get_member; [exact Hnd|exact Hin]. }
  destruct (flush_sends (_requests st1) (set_wsReady true st1) Hall) as (F1 & F2 & F3).
  unfold onopen. change (_requests (set_wsReady true st1)) with (_requests st1).
  rewrite Hkeys. repeat split.
  - exact Hs.
  - exact F1.
  - rewrite F3. simpl. rewrite Hs, Hp. reflexivity.
  - rewrite F2. reflexivity.
  - destruct (send_effect method params st) as (_ & _ & _ & H4).
    rewrite H4, H. reflexivity.
  - destruct (send_effect method params st) as (H1 & _).
    rewrite H1. exact H.
Qed.

End Gate.

Lemma readiness_gate_witness :
  websocket_sent
    (onopen (issue Example.stringify
               [("eth_blockNumber", Some (JArr [])); ("eth_chainId", undefined)]
               (constructed (ProcessFunc:=Example.Func) 1 []))).1
  = payloads_from Example.stringify 1
      [("eth_blockNumber", Some (JArr [])); ("eth_chainId", undefined)].
Proof.
  exact (proj1 (proj2 (proj2
    (readiness_gate Example.stringify
       [("eth_blockNumber", Some (JArr [])); ("eth_chainId", undefined)]
       (constructed 1 []) eq_refl eq_refl ltac:(cbn; lia))))).
Defined.

(** ** Subscriptions *)

Lemma Obj_get_set_eq {V : Type} (k : string) (v : V) (o : list (string * V)) :
  Obj.get k (Obj.set k v o) = Some v.
Proof.
  induction o as [|[k' v'] o IH]; simpl.
  - rewrite String.eqb_refl. reflexivity.
  - destruct (String.eqb_spec k k'); simpl.
    + rewrite String.eqb_refl. reflexivity.
    + destruct (String.eqb_spec k k'); [contradiction|]. exact IH.
Qed.

Section Machine.
Context (JSON_stringify : JSON -> string) {ProcessFunc : Type}.

Implicit Types (st : State ProcessFunc).

Lemma send_eq method params st :
  send JSON_stringify method params st
  = (next_promise st,
     let payload := JSON_stringify (request_object method params (NextId st)) in
     mkState (NextId st + 1) (_wsReady st)
       (Obj.set (pretty (NextId st)) (mkRequest (next_promise st) payload)
          (_requests st))
       (_subIds st) (_subs st) (_events st)
       (if _wsReady st then (websocket_sent st ++ [payload])%list
        else websocket_sent st)
       (console_warn st) (dispatched st)
       (<[next_promise st := Pending []]> (promises st))
       (S (next_promise st)) (microtasks st)).
Proof. unfold send. simpl. destruct (_wsReady st); reflexivity. Qed.

Lemma run_microtasks_idle fuel st :
  microtasks st = [] -> run_microtasks JSON_stringify fuel st = st.
Proof. intros H. destruct fuel; simpl; [reflexivity|]. rewrite H. reflexivity. Qed.

Lemma run_microtasks_step fuel st :
  run_microtasks JSON_stringify (S fuel) st
  = match microtasks st with
    | [] => st
    | j :: rest =>
        run_microtasks JSON_stringify fuel
          (run_job JSON_stringify j (set_microtasks rest st))
    end.
Proof. reflexivity. Qed.

End Machine.


(** Symbolic execution of the promise machinery on a state whose fields
    are known: an operation is run once the state it works on is explicit,
    and every lookup in the promise store or in the dictionaries is
    resolved on the way. *)
Ltac lookups Hf :=
  repeat first
    [ rewrite lookup_insert_eq
    | rewrite lookup_insert_ne by (first [lia | congruence])
    | rewrite lookup_delete_eq
    | rewrite Hf by lia
    | match goal with
      | H : _ !! _ = _ |- _ => rewrite H
      end ].

Ltac setters :=
  unfold set_promise, set_subIds, set_subs, set_requests, set_microtasks,
    set_NextId, set_wsReady, enqueue, websocket_send, new_promise.

Ltac simp :=
  cbn -[lookup insert delete then_ settle send run_microtasks _subscribe
        stop_tag pretty].

Ltac innermost X :=
  lazymatch X with
  | context [then_] => fail
  | context [settle] => fail
  | context [send] => fail
  | context [run_microtasks] => fail
  | context [_subscribe] => fail
  | context [stop_tag] => fail
  | _ => idtac
  end.

Ltac exec Hf :=
  repeat (setters; simp; first [ step_op Hf | progress (lookups Hf) ])
with step_op Hf :=
  match goal with
  | |- context [then_ ?p ?h ?d ?X] =>
      innermost X;
      let H := fresh "E" in
      eassert (H : then_ p h d X = _) by (unfold then_; exec Hf; reflexivity);
      rewrite H; clear H
  | |- context [settle ?p ?s ?X] =>
      innermost X;
      let H := fresh "E" in
      eassert (H : settle p s X = _) by (unfold settle; exec Hf; reflexivity);
      rewrite H; clear H
  | |- context [send ?str ?m ?p ?X] =>
      innermost X; rewrite (send_eq str m p X)
  | |- context [_subscribe ?t ?p ?f ?X] =>
      innermost X;
      let H := fresh "E" in
      eassert (H : _subscribe t p f X = _) by
        (unfold _subscribe; exec Hf; reflexivity);
      rewrite H; clear H
  | |- context [stop_tag ?t ?X] =>
      innermost X;
      let H := fresh "E" in
      eassert (H : stop_tag t X = _) by (unfold stop_tag; exec Hf; reflexivity);
      rewrite H; clear H
  | |- context [run_microtasks ?str (S ?fuel) ?X] =>
      innermost X;
      let H := fresh "E" in
      eassert (H : run_microtasks str (S fuel) X = _) by
        (rewrite (run_microtasks_step str fuel X); exec Hf;
         rewrite ?run_microtasks_idle by reflexivity; reflexivity);
      rewrite H; clear H
  end.

Section Subscriptions.
Context (JSON_stringify : JSON -> string) (JSON_parse : string -> option JSON)
        {ProcessFunc : Type} (listenerCount : list Event -> Event -> nat).

Implicit Types (st : State ProcessFunc).




End Subscriptions.



(* ===================================================================== *)
(** * Further properties                                                  *)
(* ===================================================================== *)

(** ** What the promise operations leave alone *)

Section Frames.
Context (JSON_stringify : JSON -> string) (JSON_parse : string -> option JSON)
        {ProcessFunc : Type} (listenerCount : list Event -> Event -> nat).

Implicit Types (st : State ProcessFunc).

Lemma same_provider_refl st : same_provider st st.
Proof. repeat split. Qed.

Lemma same_provider_trans st1 st2 st3 :
  same_provider st1 st2 -> same_provider st2 st3 -> same_provider st1 st3.
Proof.
  unfold same_provider. intros H1 H2.
  destruct H1 as (A1 & A2 & A3 & A4 & A5 & A6 & A7 & A8 & A9).
  destruct H2 as (B1 & B2 & B3 & B4 & B5 & B6 & B7 & B8 & B9).
  repeat split; congruence.
Qed.

Lemma settle_same st p s : same_provider st (settle p s st).
Proof.
  unfold settle. destruct (promises st !! p) as [[|]|]; repeat split.
Qed.

Lemma then_same st p h d : same_provider st (then_ p h d st).
Proof.
  unfold then_. destruct (promises st !! p) as [[|]|]; repeat split.
Qed.

Lemma subscribe_same tag param f st :
  NextId (_subscribe tag param f st).2 = NextId st /\
  _wsReady (_subscribe tag param f st).2 = _wsReady st /\
  _requests (_subscribe tag param f st).2 = _requests st /\
  _subs (_subscribe tag param f st).2 = _subs st /\
  websocket_sent (_subscribe tag param f st).2 = websocket_sent st /\
  dispatched (_subscribe tag param f st).2 = dispatched st.
Proof.
  unfold _subscribe. cbn -[then_].
  destruct (_subIds st !! tag); cbn -[then_].
  - match goal with
    | |- context [then_ ?p ?h ?d ?X] =>
        destruct (then_same X p h d) as (A1 & A2 & A3 & A4 & A5 & A6 & A7 & A8 & A9)
    end.
    rewrite A1, A2, A3, A5, A7, A9. repeat split.
  - unfold set_subIds. cbn -[then_].
    match goal with
    | |- context [then_ ?p ?h ?d (mkState ?a1 ?a2 ?a3 ?a4 ?a5 ?a6 ?a7 ?a8 ?a9 ?a10 ?a11 ?a12)] =>
        destruct (then_same (mkState a1 a2 a3 a4 a5 a6 a7 a8 a9 a10 a11 a12) p h d)
          as (A1 & A2 & A3 & A4 & A5 & A6 & A7 & A8 & A9)
    end.
    rewrite A1, A2, A3, A5, A7, A9. cbn -[then_].
    match goal with
    | |- context [then_ ?p ?h ?d ?X] =>
        destruct (then_same X p h d) as (B1 & B2 & B3 & B4 & B5 & B6 & B7 & B8 & B9)
    end.
    rewrite B1, B2, B3, B5, B7, B9. repeat split.
Qed.


Lemma same_evolves st st' : same_provider st st' -> evolves st st'.
Proof. intros (A1 & A2 & A3 & _). apply ev_same; assumption. Qed.

Lemma send_evolves method params st :
  evolves st (send JSON_stringify method params st).2.
Proof.
  destruct (send_effect JSON_stringify method params st) as (H1 & H2 & H3 & _).
  eapply ev_send; eassumption.
Qed.

Lemma stop_tag_same t st :
  NextId (stop_tag t st) = NextId st /\ _wsReady (stop_tag t st) = _wsReady st /\
  _requests (stop_tag t st) = _requests st /\ _subs (stop_tag t st) = _subs st /\
  websocket_sent (stop_tag t st) = websocket_sent st /\
  dispatched (stop_tag t st) = dispatched st.
Proof.
  unfold stop_tag. destruct (_subIds st !! t); [|repeat split]. cbn -[then_].
  match goal with
  | |- context [then_ ?p ?h ?d ?X] =>
      destruct (then_same X p h d) as (A1 & A2 & A3 & A4 & A5 & A6 & A7 & A8 & A9)
  end.
  rewrite A1, A2, A3, A5, A7, A9. repeat split.
Qed.

Lemma stopEvent_same event st :
  NextId (_stopEvent listenerCount event st) = NextId st /\
  _wsReady (_stopEvent listenerCount event st) = _wsReady st /\
  _requests (_stopEvent listenerCount event st) = _requests st /\
  _subs (_stopEvent listenerCount event st) = _subs st /\
  websocket_sent (_stopEvent listenerCount event st) = websocket_sent st /\
  dispatched (_stopEvent listenerCount event st) = dispatched st.
Proof.
  unfold _stopEvent.
  repeat match goal with
         | |- context [if ?b then _ else _] => destruct b
         end; try apply stop_tag_same; repeat split.
Qed.

Lemma flush_frame ids st :
  NextId (flush ids st).1 = NextId st /\ _wsReady (flush ids st).1 = _wsReady st /\
  _requests (flush ids st).1 = _requests st /\ _subIds (flush ids st).1 = _subIds st /\
  _subs (flush ids st).1 = _subs st /\ dispatched (flush ids st).1 = dispatched st /\
  promises (flush ids st).1 = promises st /\ microtasks (flush ids st).1 = microtasks st.
Proof.
  revert st. induction ids as [|id ids IH]; intros st; simpl; [repeat split|].
  destruct (Obj.get id (_requests st)) as [request|]; [|repeat split].
  destruct (IH (websocket_send (payload request) st))
    as (A1 & A2 & A3 & A4 & A5 & A6 & A7 & A8).
  rewrite A1, A2, A3, A4, A5, A6, A7, A8. repeat split.
Qed.

Lemma onopen_evolves st : evolves st (onopen st).1.
Proof.
  unfold onopen.
  destruct (flush_frame (Obj.keys (_requests (set_wsReady true st)))
              (set_wsReady true st)) as (A1 & A2 & A3 & _).
  apply ev_open; [rewrite A1|rewrite A2|rewrite A3]; reflexivity.
Qed.

Lemma request_callback_same request error result st :
  same_provider st (request_callback request error result st).1.
Proof.
  unfold request_callback, callback_call.
  destruct request; [|apply same_provider_refl].
  destruct error; simpl; apply settle_same.
Qed.

(** The handler of messages touches the table of requests at most by one
    [delete]. *)
Lemma onmessage_evolves data st : evolves st (onmessage JSON_parse data st).1.
Proof.
  unfold onmessage, try_get.
  destruct (JSON_parse data) as [result|]; [|apply same_evolves, same_provider_refl].
  destruct (JS.get (Some result) "id") as [e|idv]; cbn [fst];
    [apply same_evolves, same_provider_refl|].
  destruct (JS.not_nullish idv).
  - unfold handle_response, try_get.
    set (st1 := set_requests _ st).
    assert (Hd : evolves st st1) by (eapply ev_delete; reflexivity).
    assert (Hk : forall request error r,
               evolves st (request_callback request error r st1).1).
    { intros request error r.
      destruct (request_callback_same request error r st1) as (A1 & A2 & A3 & _).
      eapply ev_delete; [rewrite A1|rewrite A2|rewrite A3]; reflexivity. }
    destruct (JS.get (Some result) "result") as [e|[r|]]; cbn [fst]; [exact Hd|apply Hk|].
    destruct (JS.get (Some result) "error") as [e|err]; cbn [fst]; [exact Hd|].
    destruct (JS.truthy err); [|apply Hk].
    destruct (JS.get err "message"); cbn [fst]; [exact Hd|].
    destruct (JS.get err "code"); cbn [fst]; [exact Hd|apply Hk].
  - destruct (JS.get (Some result) "method") as [e|method]; cbn [fst];
      [apply same_evolves, same_provider_refl|].
    destruct (JS.is_string method "eth_subscription");
      [|apply ev_same; reflexivity].
    unfold handle_subscription, try_get.
    destruct (JS.get (Some result) "params") as [e|params]; cbn [fst];
      [apply ev_same; reflexivity|].
    destruct (JS.get params "subscription") as [e|sub]; cbn [fst];
      [apply ev_same; reflexivity|].
    destruct (_subs st !! JS.PropertyKey sub); [|apply ev_same; reflexivity].
    destruct (JS.get params "result"); cbn [fst]; apply ev_same; reflexivity.
Qed.

Lemma evolves_same_r st st' st'' :
  evolves st st' -> same_provider st' st'' -> evolves st st''.
Proof.
  intros H (A1 & A2 & A3 & _).
  destruct H as [B1 B2 B3|r B1 B2 B3|k B1 B2 B3|B1 B2 B3];
    [apply ev_same|apply (ev_send _ _ r)|apply (ev_delete _ _ k)|apply ev_open];
    congruence.
Qed.

Lemma run_job_evolves j st : evolves st (run_job JSON_stringify j st).
Proof.
  destruct j as [h d s|target source|p values]; cbn -[send settle then_].
  - destruct h, s; cbn -[send settle then_]; try (apply same_evolves, settle_same).
    + destruct (send JSON_stringify "eth_subscribe" v st) as [p st1] eqn:E.
      pose proof (send_evolves "eth_subscribe" v st) as H. rewrite E in H.
      eapply evolves_same_r; [exact H|]. repeat split.
    + eapply evolves_same_r; [|apply settle_same]. apply ev_same; reflexivity.
    + destruct (_subs st !! JS.PropertyKey v); [|apply same_evolves, settle_same].
      match goal with
      | |- context [send ?a ?b ?c ?X] =>
          destruct (send a b c X) as [p st1] eqn:E;
          pose proof (send_evolves b c X) as H; rewrite E in H
      end.
      eapply evolves_same_r; [|apply settle_same].
      destruct H as [B1 B2 B3|r B1 B2 B3|k B1 B2 B3|B1 B2 B3];
        [apply ev_same|eapply ev_send|eapply ev_delete|apply ev_open]; eassumption.
  - apply same_evolves, then_same.
  - apply same_evolves, settle_same.
Qed.

Lemma run_microtasks_evolves fuel st :
  rtc evolves st (run_microtasks JSON_stringify fuel st).
Proof.
  revert st. induction fuel as [|fuel IH]; intros st; simpl; [apply rtc_refl|].
  destruct (microtasks st) as [|j rest]; [apply rtc_refl|].
  eapply rtc_l; [|apply IH].
  destruct (run_job_evolves j (set_microtasks rest st))
    as [B1 B2 B3|r B1 B2 B3|k B1 B2 B3|B1 B2 B3];
    [apply ev_same|apply (ev_send _ _ r)|apply (ev_delete _ _ k)|apply ev_open];
    assumption.
Qed.

Lemma step_evolves i st :
  rtc evolves st (step JSON_stringify JSON_parse listenerCount i st).
Proof.
  destruct i as [method params|tg param f|event| |data|fuel]; cbn [step].
  - apply rtc_once, send_evolves.
  - apply rtc_once. destruct (subscribe_same tg param f st) as (A1 & A2 & A3 & _).
    apply ev_same; assumption.
  - apply rtc_once. destruct (stopEvent_same event st) as (A1 & A2 & A3 & _).
    apply ev_same; assumption.
  - apply rtc_once, onopen_evolves.
  - apply rtc_once, onmessage_evolves.
  - apply run_microtasks_evolves.
Qed.

Lemma run_evolves inputs st :
  rtc evolves st (run JSON_stringify JSON_parse listenerCount inputs st).
Proof.
  revert st. induction inputs as [|i inputs IH]; intros st; [apply rtc_refl|].
  eapply rtc_trans; [apply step_evolves|apply IH].
Qed.

(** X11. The readiness flag is a latch: once the socket has opened, no call, no
    message and no microtask makes the provider buffer again. *)
Theorem ready_is_a_latch inputs st :
  _wsReady st = true ->
  _wsReady (run JSON_stringify JSON_parse listenerCount inputs st) = true.
Proof.
  intros H. induction (run_evolves inputs st) as [st|st st' st'' Hev _ IH];
    [exact H|].
  apply IH. destruct Hev as [_ B _|r _ B _|k _ B _|_ B _]; congruence.
Qed.

End Frames.

(** ** The table of requests *)

Lemma sorted_filter (p : Z -> bool) (zs : list Z) :
  StronglySorted Z.lt zs -> StronglySorted Z.lt (List.filter p zs).
Proof.
  induction 1 as [|z zs Hs IH Hz]; simpl; [constructor|].
  destruct (p z); [|exact IH]. constructor; [exact IH|].
  rewrite Forall_forall in *. intros y Hy. apply Hz.
  apply list_elem_of_In. apply list_elem_of_In in Hy.
  apply filter_In in Hy. tauto.
Qed.

Lemma sorted_snoc (zs : list Z) (z : Z) :
  StronglySorted Z.lt zs -> Forall (fun y => y < z) zs ->
  StronglySorted Z.lt (zs ++ [z])%list.
Proof.
  induction 1 as [|y zs Hs IH Hy]; intros Hlt; simpl.
  - repeat constructor.
  - inversion Hlt as [|? ? Hyz Hlt']; subst.
    constructor; [apply IH; exact Hlt'|].
    apply Forall_app. split; [exact Hy|]. repeat constructor. exact Hyz.
Qed.

Lemma sorted_NoDup (zs : list Z) : StronglySorted Z.lt zs -> NoDup zs.
Proof.
  induction 1 as [|z zs Hs IH Hz]; constructor; [|exact IH].
  intros Hin. rewrite Forall_forall in Hz. specialize (Hz _ Hin). lia.
Qed.

Lemma Obj_delete_keys {V : Type} (k : string) (o : list (string * V)) (zs : list Z) :
  map fst o = map pretty zs ->
  map fst (Obj.delete k o)
  = map pretty (List.filter (fun z => negb (k =? pretty z)%string) zs).
Proof.
  revert zs. induction o as [|[k' v] o IH]; intros [|z zs] Hk; simpl in *;
    try discriminate; [reflexivity|].
  inversion Hk as [[Hk' Ho]]. rewrite <- Hk'.
  destruct (String.eqb_spec k k'); simpl; [apply IH; exact Ho|].
  f_equal; [exact Hk'|apply IH; exact Ho].
Qed.

Section Requests.
Context (JSON_stringify : JSON -> string) (JSON_parse : string -> option JSON)
        {ProcessFunc : Type} (listenerCount : list Event -> Event -> nat).

Implicit Types (st : State ProcessFunc).

Lemma requests_wf_evolves st st' : evolves st st' -> requests_wf st -> requests_wf st'.
Proof.
  intros Hev (Hn & zs & Hk & Hs & Hb).
  destruct Hev as [B1 B2 B3|r B1 B2 B3|k B1 B2 B3|B1 B2 B3].
  - split; [lia|]. exists zs. rewrite B1, B3. auto.
  - split; [lia|]. exists (zs ++ [NextId st])%list. rewrite B1, B3.
    assert (Hfresh : pretty (NextId st) ∉ map fst (_requests st)).
    { rewrite Hk. intros Hin. apply list_elem_of_fmap in Hin as (z & Hz & Hin).
      apply (inj pretty) in Hz. subst z.
      rewrite Forall_forall in Hb. specialize (Hb _ Hin). lia. }
    rewrite Obj_set_fresh by exact Hfresh. rewrite !map_app, Hk. simpl.
    split; [reflexivity|]. split.
    + apply sorted_snoc; [exact Hs|]. eapply Forall_impl; [exact Hb|]. simpl. intros; lia.
    + apply Forall_app. split.
      * eapply Forall_impl; [exact Hb|]. simpl. intros; lia.
      * repeat constructor; lia.
  - split; [lia|]. eexists. rewrite B1, B3. split; [apply Obj_delete_keys; exact Hk|].
    split; [apply sorted_filter; exact Hs|].
    rewrite Forall_forall in *. intros z Hz. apply Hb.
    apply list_elem_of_In. apply list_elem_of_In in Hz. apply filter_In in Hz. tauto.
  - split; [lia|]. exists zs. rewrite B1, B3. auto.
Qed.

Lemma requests_wf_NoDup st : requests_wf st -> NoDup (map fst (_requests st)).
Proof.
  intros (_ & zs & Hk & Hs & _). rewrite Hk.
  apply (NoDup_fmap_2 _). apply sorted_NoDup. exact Hs.
Qed.


(** The loop of the open handler on a well-formed table. *)
Lemma flush_on_wf st :
  requests_wf st ->
  let st1 := set_wsReady true st in
  (flush (Obj.keys (_requests st)) st1).2 = Returned /\
  websocket_sent (flush (Obj.keys (_requests st)) st1).1
    = (websocket_sent st ++ map (fun kv => payload kv.2) (_requests st))%list.
Proof.
  intros Hwf st1. pose proof (requests_wf_NoDup st Hwf) as Hnd.
  destruct Hwf as (Hn & zs & Hk & Hs & Hb).
  assert (Hkeys : Obj.keys (_requests st) = map fst (_requests st)).
  { rewrite Hk. apply keys_numerals; [exact Hk|exact Hs|].
    eapply Forall_impl; [exact Hb|]. simpl. intros; lia. }
  assert (Hall : Forall (fun kv => Obj.get kv.1 (_requests st1) = Some kv.2)
                   (_requests st)).
  { apply Forall_forall. intros [k v] Hin. simpl.
    apply Obj_get_member; [exact Hnd|exact Hin]. }
  destruct (flush_sends (_requests st) st1 Hall) as (F1 & _ & F3).
  rewrite Hkeys. split; assumption.
Qed.

(** X8. On a provider whose table of requests is well formed the socket's open
    handler never raises: it sets the provider ready and transmits the
    payload of every pending request once, in the order of the table
    (increasing identifiers), and changes nothing else. *)
Theorem onopen_flushes_pending st :
  requests_wf st ->
  (onopen st).2 = Returned /\
  _wsReady (onopen st).1 = true /\
  websocket_sent (onopen st).1
    = (websocket_sent st ++ map (fun kv => payload kv.2) (_requests st))%list /\
  _requests (onopen st).1 = _requests st /\
  NextId (onopen st).1 = NextId st /\
  promises (onopen st).1 = promises st.
Proof.
  intros Hwf. destruct (flush_on_wf st Hwf) as (F1 & F3).
  destruct (flush_frame (Obj.keys (_requests st)) (set_wsReady true st))
    as (A1 & A2 & A3 & _ & _ & _ & A7 & _).
  unfold onopen. change (_requests (set_wsReady true st)) with (_requests st).
  repeat split; assumption.
Qed.

Lemma issue_ready calls st :
  _wsReady st = true ->
  websocket_sent (issue JSON_stringify calls st)
  = (websocket_sent st ++ payloads_from JSON_stringify (NextId st) calls)%list.
Proof.
  revert st. induction calls as [|c calls IH]; intros st Hr.
  - simpl. rewrite app_nil_r. reflexivity.
  - destruct (send_effect JSON_stringify c.1 c.2 st) as (H1 & H2 & _ & H4).
    rewrite Hr in H1, H4.
    change (issue JSON_stringify (c :: calls) st)
      with (issue JSON_stringify calls (send JSON_stringify c.1 c.2 st).2).
    rewrite IH by exact H1. rewrite H4, H2. cbn [payloads_from].
    rewrite <- app_assoc. reflexivity.
Qed.

(** X9. Calls issued before the socket opens, the open signal, then calls
    issued after it: the socket sees the payloads of the first calls in
    the order of issue, followed by those of the later calls in the order
    of issue, each once. *)
Theorem buffered_then_direct calls1 calls2 st0 :
  _wsReady st0 = false ->
  _requests st0 = [] ->
  0 <= NextId st0 ->
  websocket_sent
    (issue JSON_stringify calls2 (onopen (issue JSON_stringify calls1 st0)).1)
  = (websocket_sent st0
     ++ payloads_from JSON_stringify (NextId st0) calls1
     ++ payloads_from JSON_stringify
          (NextId st0 + Z.of_nat (length calls1)) calls2)%list.
Proof.
  intros Hready Hempty Hnn.
  destruct (issue_not_ready JSON_stringify calls1 st0 [] Hready)
    as (Hr & Hs & Hn & Hk & Hp).
  { rewrite Hempty. reflexivity. }
  { constructor. }
  rewrite Hempty in Hp. simpl in Hk, Hp.
  set (st1 := issue JSON_stringify calls1 st0) in *.
  assert (Hwf : requests_wf st1).
  { split; [lia|]. eexists. split; [exact Hk|]. split; [apply seqZ_increasing|].
    apply Forall_seqZ. intros; lia. }
  destruct (flush_on_wf st1 Hwf) as (_ & O3).
  destruct (flush_frame (Obj.keys (_requests st1)) (set_wsReady true st1))
    as (O5 & O2 & _).
  unfold onopen. change (_requests (set_wsReady true st1)) with (_requests st1).
  rewrite issue_ready by exact O2. rewrite O3, O5, Hs, Hp. cbn [NextId set_wsReady].
  rewrite Hn, <- app_assoc. reflexivity.
Qed.

End Requests.

(** ** Responses and pushes *)

Lemma Obj_get_delete_ne {V : Type} (k k' : string) (o : list (string * V)) :
  k <> k' -> Obj.get k (Obj.delete k' o) = Obj.get k o.
Proof.
  intros Hne. induction o as [|[k2 v] o IH]; simpl; [reflexivity|].
  destruct (String.eqb_spec k' k2) as [->|Hne2]; simpl.
  - destruct (String.eqb_spec k k2); [contradiction|exact IH].
  - destruct (String.eqb_spec k k2); [reflexivity|exact IH].
Qed.

Lemma Obj_delete_set_fresh {V : Type} (k : string) (v : V) (o : list (string * V)) :
  Obj.get k o = None -> Obj.delete k (Obj.set k v o) = o.
Proof.
  induction o as [|[k' v'] o IH]; simpl; intros Hk.
  - rewrite String.eqb_refl. reflexivity.
  - destruct (String.eqb_spec k k') as [->|Hne]; [discriminate|]. simpl.
    destruct (String.eqb_spec k k'); [contradiction|]. rewrite IH by exact Hk.
    reflexivity.
Qed.

Section Routing.
Context (JSON_stringify : JSON -> string) (JSON_parse : string -> option JSON)
        {ProcessFunc : Type}.

Implicit Types (st : State ProcessFunc) (fields : list (string * JSON)).

Lemma settle_other st p s q :
  q <> p -> promises (settle p s st) !! q = promises st !! q.
Proof.
  intros Hne. unfold settle. destruct (promises st !! p) as [[|]|]; try reflexivity.
  simpl. apply lookup_insert_ne. congruence.
Qed.

(** What the handler does with a message that carries an id: it deletes
    the entry of that id and settles at most the promise of that entry. *)
Lemma handle_response_effect data fields idv st :
  let key := JS.String idv in
  let st1 := set_requests (Obj.delete key (_requests st)) st in
  let st' := (handle_response data (JObj fields) (Some idv) st).1 in
  st' = st1 \/
  exists request s,
    Obj.get key (_requests st) = Some request /\
    st' = settle (callback request) s st1.
Proof.
  intros key st1 st'. subst st'. unfold handle_response, try_get.
  fold key. fold st1. cbn [JS.get].
  assert (Hk : forall error r,
             (request_callback (Obj.get key (_requests st)) error r st1).1 = st1 \/
             exists request s,
               Obj.get key (_requests st) = Some request /\
               (request_callback (Obj.get key (_requests st)) error r st1).1
               = settle (callback request) s st1).
  { intros error r. unfold request_callback, callback_call.
    destruct (Obj.get key (_requests st)) as [request|]; [|left; reflexivity].
    right. exists request. destruct error; eexists; split; reflexivity. }
  destruct (JS.field "result" fields) as [r|]; [apply Hk|].
  destruct (JS.truthy (JS.field "error" fields)) eqn:Ht; [|apply Hk].
  destruct (JS.get (JS.field "error" fields) "message") as [e|m]; cbn [fst];
    [left; reflexivity|].
  destruct (JS.get (JS.field "error" fields) "code") as [e|c]; cbn [fst];
    [left; reflexivity|apply Hk].
Qed.

(** X3. A message that carries an id is local to the call of that id: the
    other pending requests and all other promises stay as they are, no
    dispatch function is called, nothing is logged or transmitted, the
    subscriptions and the counter are untouched. *)
Theorem response_is_local data fields idv st :
  JSON_parse data = Some (JObj fields) ->
  JS.field "id" fields = Some idv -> idv <> JNull ->
  let st' := (onmessage JSON_parse data st).1 in
  (forall k, k <> JS.String idv ->
     Obj.get k (_requests st') = Obj.get k (_requests st)) /\
  (forall p, (forall request,
                Obj.get (JS.String idv) (_requests st) = Some request ->
                p <> callback request) ->
     promises st' !! p = promises st !! p) /\
  dispatched st' = dispatched st /\
  console_warn st' = console_warn st /\
  websocket_sent st' = websocket_sent st /\
  _subs st' = _subs st /\ _subIds st' = _subIds st /\
  NextId st' = NextId st /\ _wsReady st' = _wsReady st.
Proof.
  intros Hp Hid Hn st'. subst st'.
  rewrite (onmessage_response _ _ _ _ _ Hp Hid Hn).
  destruct (handle_response_effect data fields idv st) as [E|(request & s & Hreq & E)];
    rewrite E; clear E.
  - split; [intros k Hk; apply Obj_get_delete_ne; exact Hk|]. repeat split.
  - destruct (settle_same (set_requests (Obj.delete (JS.String idv) (_requests st)) st)
                (callback request) s) as (A1 & A2 & A3 & A4 & A5 & A6 & A7 & A8 & A9).
    split; [intros k Hk; rewrite A3; apply Obj_get_delete_ne; exact Hk|].
    split; [intros p Hp'; rewrite settle_other by (apply Hp'; exact Hreq); reflexivity|].
    rewrite A1, A2, A4, A5, A7, A8, A9. repeat split.
Qed.

(** X4. A message that carries an id raises a TypeError when it is delivered
    a second time, whatever it did the first time, and then changes
    nothing. *)
Theorem replayed_response_raises data fields idv st :
  JSON_parse data = Some (JObj fields) ->
  JS.field "id" fields = Some idv -> idv <> JNull ->
  let st' := (onmessage JSON_parse data st).1 in
  onmessage JSON_parse data st' = (st', Threw JS.TypeError).
Proof.
  intros Hp Hid Hn st'. apply (unmatched_id_raises _ _ _ _ _ Hp Hid Hn).
  subst st'. rewrite (onmessage_response _ _ _ _ _ Hp Hid Hn).
  apply response_removes.
Qed.

(** X1. A call and its answer: after [send] and a response that carries the
    identifier of the call and a result, the promise that [send] returned
    is fulfilled with that result and the table of requests is what it
    was before the call. *)
Theorem send_then_response method params data fields idv r st :
  requests_wf st ->
  JSON_parse data = Some (JObj fields) ->
  JS.field "id" fields = Some idv -> idv <> JNull ->
  JS.String idv = pretty (NextId st) ->
  JS.field "result" fields = Some r ->
  let p := (send JSON_stringify method params st).1 in
  let s1 := (send JSON_stringify method params st).2 in
  (onmessage JSON_parse data s1).2 = Returned /\
  promises (onmessage JSON_parse data s1).1 !! p = Some (Done (Fulfilled (Some r))) /\
  _requests (onmessage JSON_parse data s1).1 = _requests st.
Proof.
  intros (Hn0 & zs & Hk & Hs & Hb) Hp Hid Hn Hkey Hres p s1.
  assert (Hfresh : Obj.get (pretty (NextId st)) (_requests st) = None).
  { destruct (Obj.get (pretty (NextId st)) (_requests st)) as [v|] eqn:E; [|reflexivity].
    exfalso.
    assert (Hin : pretty (NextId st) ∈ map fst (_requests st)).
    { clear -E. induction (_requests st) as [|[k' v'] o IH]; simpl in *; [discriminate|].
      destruct (String.eqb_spec (pretty (NextId st)) k') as [->|Hne]; [left|].
      right. apply IH. exact E. }
    rewrite Hk in Hin. apply list_elem_of_fmap in Hin as (z & Hz & Hin).
    apply (inj pretty) in Hz. subst z.
    rewrite Forall_forall in Hb. specialize (Hb _ Hin). lia. }
  pose proof (send_eq JSON_stringify method params st) as Es.
  subst p s1. rewrite Es. cbn [fst snd].
  erewrite (response_result JSON_parse data fields idv _ r _ Hp Hid Hn)
    by (try exact Hres; cbn [_requests]; rewrite Hkey; apply Obj_get_set_eq).
  cbn [fst snd callback]. split; [reflexivity|]. split.
  - eapply settle_pending. cbn [promises set_requests]. apply lookup_insert_eq.
  - rewrite settle_requests. cbn [_requests set_requests].
    rewrite Hkey. apply Obj_delete_set_fresh. exact Hfresh.
Qed.


End Routing.

(** ** What is never transmitted and never dispatched *)

Section Quiet.
Context (JSON_stringify : JSON -> string) (JSON_parse : string -> option JSON)
        {ProcessFunc : Type} (listenerCount : list Event -> Event -> nat).

Implicit Types (st : State ProcessFunc).

Lemma quiet_refl st : quiet st st.
Proof. repeat split. Qed.

Lemma quiet_trans st1 st2 st3 : quiet st1 st2 -> quiet st2 st3 -> quiet st1 st3.
Proof.
  intros (A1 & A2 & A3) (B1 & B2 & B3). repeat split; try congruence.
  intros H. rewrite B3 by congruence. apply A3. exact H.
Qed.

Lemma same_quiet st st' : same_provider st st' -> quiet st st'.
Proof.
  intros (A1 & A2 & A3 & A4 & A5 & A6 & A7 & A8 & A9). repeat split; auto.
Qed.

Lemma send_quiet method params st : quiet st (send JSON_stringify method params st).2.
Proof.
  rewrite send_eq. cbn. repeat split. intros H. rewrite H. reflexivity.
Qed.

Lemma run_job_quiet j st : quiet st (run_job JSON_stringify j st).
Proof.
  destruct j as [h d s|target source|p values]; cbn -[send settle then_].
  - destruct h, s; cbn -[send settle then_]; try (apply same_quiet, settle_same).
    + pose proof (send_quiet "eth_subscribe" v st) as H.
      destruct (send JSON_stringify "eth_subscribe" v st) as [p st1].
      eapply quiet_trans; [exact H|]. repeat split.
    + eapply quiet_trans; [|apply same_quiet, settle_same]. repeat split.
    + destruct (_subs st !! JS.PropertyKey v); [|apply same_quiet, settle_same].
      match goal with
      | |- context [send ?a ?b ?c ?X] =>
          pose proof (send_quiet b c X) as H; destruct (send a b c X) as [p st1]
      end.
      eapply quiet_trans; [|apply same_quiet, settle_same].
      eapply quiet_trans; [|exact H]. repeat split.
  - apply same_quiet, then_same.
  - apply same_quiet, settle_same.
Qed.

Lemma run_microtasks_quiet fuel st : quiet st (run_microtasks JSON_stringify fuel st).
Proof.
  revert st. induction fuel as [|fuel IH]; intros st; simpl; [apply quiet_refl|].
  destruct (microtasks st) as [|j rest]; [apply quiet_refl|].
  eapply quiet_trans; [|apply IH].
  eapply quiet_trans; [|apply run_job_quiet]. repeat split.
Qed.

(** The handler of messages transmits nothing and calls at most one
    dispatch function. *)
Lemma onmessage_frame data st :
  _wsReady (onmessage JSON_parse data st).1 = _wsReady st /\
  websocket_sent (onmessage JSON_parse data st).1 = websocket_sent st.
Proof.
  unfold onmessage, try_get.
  destruct (JSON_parse data) as [result|]; [|split; reflexivity].
  destruct (JS.get (Some result) "id") as [e|idv]; cbn [fst]; [split; reflexivity|].
  destruct (JS.not_nullish idv).
  - unfold handle_response, try_get.
    set (st1 := set_requests _ st).
    assert (Hk : forall request error r,
               _wsReady (request_callback request error r st1).1 = _wsReady st /\
               websocket_sent (request_callback request error r st1).1
               = websocket_sent st).
    { intros request error r.
      destruct (request_callback_same request error r st1)
        as (_ & A2 & _ & _ & _ & _ & A7 & _).
      rewrite A2, A7. split; reflexivity. }
    destruct (JS.get (Some result) "result") as [e|[r|]]; cbn [fst];
      [split; reflexivity|apply Hk|].
    destruct (JS.get (Some result) "error") as [e|err]; cbn [fst];
      [split; reflexivity|].
    destruct (JS.truthy err); [|apply Hk].
    destruct (JS.get err "message"); cbn [fst]; [split; reflexivity|].
    destruct (JS.get err "code"); cbn [fst]; [split; reflexivity|apply Hk].
  - destruct (JS.get (Some result) "method") as [e|method]; cbn [fst];
      [split; reflexivity|].
    destruct (JS.is_string method "eth_subscription"); [|split; reflexivity].
    unfold handle_subscription, try_get.
    destruct (JS.get (Some result) "params") as [e|params]; cbn [fst];
      [split; reflexivity|].
    destruct (JS.get params "subscription") as [e|sub]; cbn [fst];
      [split; reflexivity|].
    destruct (_subs st !! JS.PropertyKey sub); [|split; reflexivity].
    destruct (JS.get params "result"); cbn [fst]; split; reflexivity.
Qed.

Lemma step_quiet i st :
  is_open i = false -> is_message i = false ->
  quiet st (step JSON_stringify JSON_parse listenerCount i st).
Proof.
  destruct i as [method params|tg param f|event| |data|fuel];
    cbn [step is_open is_message]; intros Ho Hm; try discriminate.
  - apply send_quiet.
  - destruct (subscribe_same tg param f st) as (_ & A2 & _ & _ & A5 & A6).
    repeat split; auto.
  - destruct (stopEvent_same listenerCount event st) as (_ & A2 & _ & _ & A5 & A6).
    repeat split; auto.
  - apply run_microtasks_quiet.
Qed.

(** X10. Before the socket has opened nothing reaches it: whatever is called on
    the provider and whatever arrives, as long as the open signal is not
    among the inputs, the provider stays not ready and has transmitted
    nothing. *)
Theorem nothing_transmitted_before_open inputs st :
  _wsReady st = false ->
  forallb (fun i => negb (is_open i)) inputs = true ->
  _wsReady (run JSON_stringify JSON_parse listenerCount inputs st) = false /\
  websocket_sent (run JSON_stringify JSON_parse listenerCount inputs st)
  = websocket_sent st.
Proof.
  revert st. induction inputs as [|i inputs IH]; intros st Hr Hall; [auto|].
  simpl in Hall. apply andb_prop in Hall as [Hi Hall].
  apply negb_true_iff in Hi.
  assert (H : _wsReady (step JSON_stringify JSON_parse listenerCount i st) = false /\
              websocket_sent (step JSON_stringify JSON_parse listenerCount i st)
              = websocket_sent st).
  { destruct (is_message i) eqn:Hm.
    - destruct i as [method params|tg param f|event| |data|fuel];
        try discriminate. cbn [step].
      destruct (onmessage_frame data st) as (A1 & A2). rewrite A1, A2. auto.
    - destruct (step_quiet i st Hi Hm) as (_ & A2 & A3).
      rewrite A2, A3 by exact Hr. auto. }
  destruct H as (H1 & H2).
  change (run JSON_stringify JSON_parse listenerCount (i :: inputs) st)
    with (run JSON_stringify JSON_parse listenerCount inputs
            (step JSON_stringify JSON_parse listenerCount i st)).
  destruct (IH _ H1 Hall) as (I1 & I2). rewrite I1, I2, H2. auto.
Qed.

(** X6. Dispatch functions are called from the handler of messages only: a
    history without messages calls none. *)
Theorem dispatch_only_on_message inputs st :
  forallb (fun i => negb (is_message i)) inputs = true ->
  dispatched (run JSON_stringify JSON_parse listenerCount inputs st) = dispatched st.
Proof.
  revert st. induction inputs as [|i inputs IH]; intros st Hall; [reflexivity|].
  simpl in Hall. apply andb_prop in Hall as [Hi Hall].
  apply negb_true_iff in Hi.
  change (run JSON_stringify JSON_parse listenerCount (i :: inputs) st)
    with (run JSON_stringify JSON_parse listenerCount inputs
            (step JSON_stringify JSON_parse listenerCount i st)).
  rewrite IH by exact Hall.
  destruct (is_open i) eqn:Ho.
  - destruct i; try discriminate. cbn [step]. unfold onopen.
    destruct (flush_frame (Obj.keys (_requests (set_wsReady true st)))
                (set_wsReady true st)) as (_ & _ & _ & _ & _ & A6 & _).
    rewrite A6. reflexivity.
  - destruct (step_quiet i st Ho Hi) as (A1 & _). exact A1.
Qed.

End Quiet.

(** ** Responses in any order *)

Lemma Obj_get_set_ne {V : Type} (k k' : string) (v : V) (o : list (string * V)) :
  k <> k' -> Obj.get k (Obj.set k' v o) = Obj.get k o.
Proof.
  intros Hne. induction o as [|[k2 v2] o IH]; simpl.
  - destruct (String.eqb_spec k k'); [contradiction|reflexivity].
  - destruct (String.eqb_spec k' k2) as [->|Hne2]; simpl.
    + destruct (String.eqb_spec k k2); [contradiction|reflexivity].
    + destruct (String.eqb_spec k k2); [reflexivity|exact IH].
Qed.

Lemma Obj_get_absent {V : Type} (k : string) (o : list (string * V)) :
  k ∉ map fst o -> Obj.get k o = None.
Proof.
  induction o as [|[k' v] o IH]; simpl; intros Hk; [reflexivity|].
  destruct (String.eqb_spec k k') as [->|Hne]; [exfalso; apply Hk; left|].
  apply IH. intros Hin. apply Hk. right. exact Hin.
Qed.

Section Order.
Context (JSON_stringify : JSON -> string) (JSON_parse : string -> option JSON)
        {ProcessFunc : Type}.

Implicit Types (st : State ProcessFunc).

(** No request is filed under an identifier that is still to be handed
    out. *)
Lemma requests_wf_fresh st z :
  requests_wf st -> NextId st <= z -> Obj.get (pretty z) (_requests st) = None.
Proof.
  intros (_ & zs & Hk & _ & Hb) Hz. apply Obj_get_absent. rewrite Hk.
  intros Hin. apply list_elem_of_fmap in Hin as (y & Hy & Hin).
  apply (inj pretty) in Hy. subst y.
  rewrite Forall_forall in Hb. specialize (Hb _ Hin). lia.
Qed.

(** X2. Two calls whose responses arrive in the reverse order: each promise is
    fulfilled with the result of the response that carries its own
    identifier, and the table of requests is what it was before the
    calls. *)
Theorem responses_out_of_order method1 params1 method2 params2
    data1 fields1 id1 r1 data2 fields2 id2 r2 st :
  requests_wf st ->
  JSON_parse data1 = Some (JObj fields1) ->
  JS.field "id" fields1 = Some id1 -> id1 <> JNull ->
  JS.String id1 = pretty (NextId st) ->
  JS.field "result" fields1 = Some r1 ->
  JSON_parse data2 = Some (JObj fields2) ->
  JS.field "id" fields2 = Some id2 -> id2 <> JNull ->
  JS.String id2 = pretty (NextId st + 1) ->
  JS.field "result" fields2 = Some r2 ->
  let a := send JSON_stringify method1 params1 st in
  let b := send JSON_stringify method2 params2 a.2 in
  let s := (onmessage JSON_parse data1 (onmessage JSON_parse data2 b.2).1).1 in
  promises s !! a.1 = Some (Done (Fulfilled (Some r1))) /\
  promises s !! b.1 = Some (Done (Fulfilled (Some r2))) /\
  _requests s = _requests st.
Proof.
  intros Hwf Hp1 Hid1 Hn1 Hk1 Hr1 Hp2 Hid2 Hn2 Hk2 Hr2 a b s.
  pose proof (requests_wf_fresh st (NextId st) Hwf ltac:(lia)) as Hf1.
  pose proof (requests_wf_fresh st (NextId st + 1) Hwf ltac:(lia)) as Hf2.
  assert (Hne : pretty (NextId st + 1) <> pretty (NextId st)).
  { intros H. apply (inj pretty) in H. lia. }
  destruct st as [n rdy reqs sids subs evs sent warns disp proms np mq].
  cbn [NextId _requests] in Hk1, Hk2, Hf1, Hf2, Hne. clear Hwf.
  subst s b a. rewrite send_eq. cbn -[lookup insert send pretty].
  rewrite send_eq. cbn -[lookup insert pretty settle].
  erewrite (response_result JSON_parse data2 fields2 id2 _ r2 _ Hp2 Hid2 Hn2)
    by (try exact Hr2; cbn [_requests]; rewrite Hk2; apply Obj_get_set_eq).
  cbn -[lookup insert pretty settle]. step_op Hne.
  setters. cbn -[lookup insert pretty settle].
  rewrite Hk2, Obj_delete_set_fresh
    by (rewrite Obj_get_set_ne by exact Hne; exact Hf2).
  erewrite (response_result JSON_parse data1 fields1 id1 _ r1 _ Hp1 Hid1 Hn1)
    by (try exact Hr1; cbn [_requests]; rewrite Hk1; apply Obj_get_set_eq).
  cbn -[lookup insert pretty settle]. step_op Hne.
  setters. cbn -[lookup insert pretty settle].
  rewrite Hk1, Obj_delete_set_fresh by exact Hf1.
  repeat split; lookups Hne; reflexivity.
Qed.

End Order.

(** ** Subscriptions: further scenarios *)

Section Lifecycle.
Context (JSON_stringify : JSON -> string) (JSON_parse : string -> option JSON)
        {ProcessFunc : Type} (listenerCount : list Event -> Event -> nat).

Implicit Types (st : State ProcessFunc).

Lemma settled_promise_is_old st q s :
  fresh_promises st -> promises st !! q = Some s -> (q < next_promise st)%nat.
Proof.
  intros Hf Hq. destruct (le_lt_dec (next_promise st) q) as [Hle|Hlt]; [|exact Hlt].
  rewrite (Hf q Hle) in Hq. discriminate.
Qed.

(** [_subscribe] on a tag that has a promise cached allocates the promise
    of the async function and waits on the cached one. *)
Lemma subscribe_cached tag param f q st :
  _subIds st !! tag = Some q ->
  _subscribe tag param f st
  = (next_promise st,
     then_ q (H_await_subIdPromise tag f) (next_promise st) (new_promise st).2).
Proof.
  intros H. unfold _subscribe. cbn -[then_ lookup]. rewrite H. reflexivity.
Qed.

(** [exec], followed by the reductions its last round left undone. *)
Ltac eval_state Hf := exec Hf; setters; simp.

(** Evaluation of the first call of [_subscribe], or run of the
    microtasks, that works on a known state; the bindings of the goal that
    follow are kept. *)
Ltac eval_subscribe Hf :=
  match goal with
  | |- context [_subscribe ?a ?b ?c ?X] =>
      let E := fresh "E" in
      eassert (E : _subscribe a b c X = _) by
        (unfold _subscribe; eval_state Hf; reflexivity);
      rewrite E; clear E; cbv beta iota delta [fst snd]
  end.

Ltac eval_cached_subscribe Hf :=
  match goal with
  | |- context [_subscribe ?a ?b ?c ?X] =>
      erewrite (subscribe_cached a b c _ X) by (simp; lookups Hf; reflexivity);
      cbv beta iota delta [fst snd]; step_op Hf
  end.

Ltac eval_microtasks Hf :=
  match goal with
  | |- context [run_microtasks ?a ?b ?X] =>
      let E := fresh "E" in
      eassert (E : run_microtasks a b X = _) by (eval_state Hf; reflexivity);
      rewrite E; clear E
  end.





End Lifecycle.

(** ** Instances *)

Lemma constructed_wf {ProcessFunc : Type} (next : Z) (events : list Event) :
  0 <= next -> requests_wf (constructed (ProcessFunc:=ProcessFunc) next events).
Proof.
  intros H. split; [exact H|]. exists []. repeat split; constructor.
Qed.

Lemma one_call_wf (method : string) (params : JSValue) :
  requests_wf (Example.one_call method params).
Proof.
  split; [cbn; lia|]. exists [1]. split; [reflexivity|].
  split; repeat constructor; cbn; lia.
Qed.

Lemma ready_is_a_latch_witness :
  _wsReady (run Example.stringify (Example.parse_as Messages.stray_response)
              Scenario.no_listeners Instances.history Instances.opened) = true.
Proof.
  exact (ready_is_a_latch Example.stringify
           (Example.parse_as Messages.stray_response) Scenario.no_listeners
           Instances.history Instances.opened eq_refl).
Defined.


Lemma onopen_flushes_pending_witness :
  websocket_sent (onopen (Example.one_call "eth_blockNumber" undefined)).1
  = map (fun kv => payload kv.2)
      (_requests (Example.one_call "eth_blockNumber" undefined)).
Proof.
  exact (proj1 (proj2 (proj2
    (onopen_flushes_pending (Example.one_call "eth_blockNumber" undefined)
       (one_call_wf "eth_blockNumber" undefined))))).
Defined.

Lemma buffered_then_direct_witness :
  websocket_sent
    (issue Example.stringify Instances.one_more_call
       (onopen (issue Example.stringify Instances.two_calls
                  (constructed (ProcessFunc:=Example.Func) 1 []))).1)
  = (payloads_from Example.stringify 1 Instances.two_calls
     ++ payloads_from Example.stringify 3 Instances.one_more_call)%list.
Proof.
  exact (buffered_then_direct Example.stringify Instances.two_calls
           Instances.one_more_call (constructed 1 []) eq_refl eq_refl
           ltac:(cbn; lia)).
Defined.

Lemma response_is_local_witness :
  dispatched (onmessage (Example.parse_as Example.error_bad) "raw"
                (Example.one_call "eth_blockNumber" undefined)).1 = [].
Proof.
  exact (proj1 (proj2 (proj2
    (response_is_local (Example.parse_as Example.error_bad) "raw" _ (JNum 1)
       (Example.one_call "eth_blockNumber" undefined)
       eq_refl eq_refl ltac:(discriminate))))).
Defined.

Lemma replayed_response_raises_witness :
  (onmessage (Example.parse_as Example.error_bad) "raw"
     (onmessage (Example.parse_as Example.error_bad) "raw"
        (Example.one_call "eth_blockNumber" undefined)).1).2
  = Threw JS.TypeError.
Proof.
  exact (f_equal snd
    (replayed_response_raises (Example.parse_as Example.error_bad) "raw" _ (JNum 1)
       (Example.one_call "eth_blockNumber" undefined)
       eq_refl eq_refl ltac:(discriminate))).
Defined.

Lemma send_then_response_witness :
  _requests
    (onmessage (Example.parse_as Scenario.subscribed) "raw"
       (send Example.stringify "eth_subscribe" undefined
          (constructed (ProcessFunc:=Example.Func) 1 [])).2).1 = [].
Proof.
  exact (proj2 (proj2
    (send_then_response Example.stringify (Example.parse_as Scenario.subscribed)
       "eth_subscribe" undefined "raw" _ (JNum 1) (JStr "0xcafe")
       (constructed 1 []) (constructed_wf 1 [] ltac:(lia))
       eq_refl eq_refl ltac:(discriminate) eq_refl eq_refl))).
Defined.






Lemma nothing_transmitted_before_open_witness :
  websocket_sent
    (run Example.stringify (Example.parse_as Messages.stray_response)
       Scenario.no_listeners Instances.history
       (constructed (ProcessFunc:=Example.Func) 1 [])) = [].
Proof.
  exact (proj2 (nothing_transmitted_before_open Example.stringify
                  (Example.parse_as Messages.stray_response)
                  Scenario.no_listeners Instances.history (constructed 1 [])
                  eq_refl eq_refl)).
Defined.

Lemma dispatch_only_on_message_witness :
  dispatched
    (run Example.stringify (Example.parse_as Messages.stray_response)
       Scenario.no_listeners Instances.silent_history
       (constructed (ProcessFunc:=Example.Func) 1 [])) = [].
Proof.
  exact (dispatch_only_on_message Example.stringify
           (Example.parse_as Messages.stray_response) Scenario.no_listeners
           Instances.silent_history (constructed 1 []) eq_refl).
Defined.

Lemma responses_out_of_order_witness :
  _requests
    (onmessage Instances.parse_answers "first"
       (onmessage Instances.parse_answers "second"
          (send Example.stringify "eth_gasPrice" undefined
             (send Example.stringify "eth_chainId" undefined
                (constructed (ProcessFunc:=Example.Func) 1 [])).2).2).1).1 = [].
Proof.
  exact (proj2 (proj2
    (responses_out_of_order Example.stringify Instances.parse_answers
       "eth_chainId" undefined "eth_gasPrice" undefined
       "first" _ (JNum 1) (JStr "0x1") "second" _ (JNum 2) (JStr "0x2")
       (constructed 1 []) (constructed_wf 1 [] ltac:(lia))
       eq_refl eq_refl ltac:(discriminate) eq_refl eq_refl
       eq_refl eq_refl ltac:(discriminate) eq_refl eq_refl))).
Defined.
